(** * Heat Duel: the turn-resolution engine of [overheat.js]

    A shallow embedding of the class [HeatDuelGame].  The object's mutable
    [this.state] becomes an explicit [GameState] record threaded through
    every method.  JavaScript numbers are modelled as exact rationals
    ([Q]): [heat / 100] and [1 - heat / 100] are genuine fractions and
    [Math.floor] is [Qfloor]; floating-point rounding is not modelled.
    Equalities between numeric results are therefore stated up to [==]
    ([Qeq]); everything else is compared with Leibniz equality.

    The strings pushed by [_log] are represented by structured events
    ([LogEvent]), one constructor per message of the source.  The one
    effect that escapes [this.state], the [setTimeout] of [_endTurn], is
    recorded in the field [timers]: the number of [startTurn] callbacks
    the host still has to fire. *)

From Stdlib Require Import List String ZArith QArith Qround Qminmax Bool Lia Lqa.
From Stdlib Require Floats Uint63.
Import ListNotations.
Open Scope Q_scope.

(** ** Data model *)

Inductive Side : Type := P1 | P2.

Inductive Phase : Type := PhStart | PhAction | PhDefense | PhInsert | PhEnd.

(** A card is a flat record; [damage], [heatChange] and [heal] are
    optional, [type] is the raw string tag ("attack" or "defense"). *)
Record Card : Type := mkCard {
  name : string;
  type : string;
  damage : option Q;
  heatChange : option Q;
  heal : option Q
}.

(** One constructor per message that the source passes to [_log]. *)
Inductive LogEvent : Type :=
| LogInit (m : string)
| LogSkipTurn (p : Side)
| LogDraw (p : Side) (card : string)
| LogTurnStart (p : Side)
| LogPlay (p : Side) (card : string)
| LogDefendNext (p : Side)
| LogSelect (p : Side)
| LogReveal (c1 c2 : string)
| LogAttackVsAttack
| LogP1AttacksP2Defends
| LogP2AttacksP1Defends
| LogBothDefend
| LogInsertGranted (defender : Side) (heatDiff : Q)
| LogInsertAttack (defender : Side) (card : string)
| LogHeat (p : Side) (change newHeat : Q)
| LogDamage (p opp : Side) (final : Z) (raw attackMul defenseMul : Q)
| LogHeal (p : Side) (amount newHp : Q)
| LogOverheat (p : Side)
| LogTurnEnd (p : Side)
| LogWins (p : Side)
| LogGameOver.

Record PlayerState : Type := mkPlayer {
  hp : Q;
  heat : Q;
  skipped : bool;
  hand : list Card;
  deck : list Card;
  selectedCard : option Card
}.

Record GameState : Type := mkState {
  p1 : PlayerState;
  p2 : PlayerState;
  turn : Side;
  phase : Phase;
  mode : string;
  log : list LogEvent;
  timers : nat
}.

(** What a call of a public method does besides changing the state. *)
Inductive Error : Type := InvalidMode | InvalidCard | TypeError.

Inductive Outcome : Type := Returned | Threw (e : Error).

(** ** Field updates *)

Definition setHp (v : Q) (p : PlayerState) : PlayerState :=
  mkPlayer v (heat p) (skipped p) (hand p) (deck p) (selectedCard p).

Definition setHeat (v : Q) (p : PlayerState) : PlayerState :=
  mkPlayer (hp p) v (skipped p) (hand p) (deck p) (selectedCard p).

Definition setSkipped (v : bool) (p : PlayerState) : PlayerState :=
  mkPlayer (hp p) (heat p) v (hand p) (deck p) (selectedCard p).

Definition setHand (v : list Card) (p : PlayerState) : PlayerState :=
  mkPlayer (hp p) (heat p) (skipped p) v (deck p) (selectedCard p).

Definition setDeck (v : list Card) (p : PlayerState) : PlayerState :=
  mkPlayer (hp p) (heat p) (skipped p) (hand p) v (selectedCard p).

Definition setSelectedCard (v : option Card) (p : PlayerState) : PlayerState :=
  mkPlayer (hp p) (heat p) (skipped p) (hand p) (deck p) v.

(** [this.state.players[id]] *)
Definition player (id : Side) (s : GameState) : PlayerState :=
  match id with P1 => p1 s | P2 => p2 s end.

Definition setPlayer (id : Side) (p : PlayerState) (s : GameState) : GameState :=
  match id with
  | P1 => mkState p (p2 s) (turn s) (phase s) (mode s) (log s) (timers s)
  | P2 => mkState (p1 s) p (turn s) (phase s) (mode s) (log s) (timers s)
  end.

Definition setTurn (v : Side) (s : GameState) : GameState :=
  mkState (p1 s) (p2 s) v (phase s) (mode s) (log s) (timers s).

Definition setPhase (v : Phase) (s : GameState) : GameState :=
  mkState (p1 s) (p2 s) (turn s) v (mode s) (log s) (timers s).

Definition setTimers (v : nat) (s : GameState) : GameState :=
  mkState (p1 s) (p2 s) (turn s) (phase s) (mode s) (log s) v.

(** [_log]: append one message to the trace. *)
Definition addLog (e : LogEvent) (s : GameState) : GameState :=
  mkState (p1 s) (p2 s) (turn s) (phase s) (mode s) (log s ++ [e]) (timers s).

(** ** JavaScript primitives used by the engine *)

Definition Side_eqb (a b : Side) : bool :=
  match a, b with P1, P1 | P2, P2 => true | _, _ => false end.

Definition Phase_eqb (a b : Phase) : bool :=
  match a, b with
  | PhStart, PhStart | PhAction, PhAction | PhDefense, PhDefense
  | PhInsert, PhInsert | PhEnd, PhEnd => true
  | _, _ => false
  end.

(** [x < y] on numbers, as a boolean. *)
Definition Qltb (x y : Q) : bool :=
  match x ?= y with Lt => true | _ => false end.

(** Truthiness of an optional numeric field: [undefined] and [0] are
    falsy.  Returns the number when the test [if (card.f)] succeeds. *)
Definition ifSet (x : option Q) : option Q :=
  match x with
  | Some q => if Qeq_bool q 0 then None else Some q
  | None => None
  end.

(** [arr[i]]: [undefined] for a negative or too large index. *)
Definition at_index {A : Type} (l : list A) (i : Z) : option A :=
  if (i <? 0)%Z then None else nth_error l (Z.to_nat i).

(** [arr.splice(i, 1)] for an index that is in range. *)
Definition splice1 {A : Type} (i : Z) (l : list A) : list A :=
  firstn (Z.to_nat i) l ++ skipn (S (Z.to_nat i)) l.

Definition isAttack (c : Card) : bool := String.eqb (type c) "attack".
Definition isDefense (c : Card) : bool := String.eqb (type c) "defense".

(** ** The engine *)

(** [constructor(player1Deck, player2Deck, mode)] *)
Definition newPlayer (d : list Card) : PlayerState :=
  mkPlayer 100 0 false [] d None.

Definition newGame (player1Deck player2Deck : list Card) (m : string) : GameState :=
  addLog (LogInit m)
    (mkState (newPlayer player1Deck) (newPlayer player2Deck) P1 PhStart m [] 0).

(** [_getOpponent] *)
Definition getOpponent (id : Side) : Side :=
  match id with P1 => P2 | P2 => P1 end.

(** [_drawCard]: move the front of the deck to the back of the hand. *)
Definition drawCard (id : Side) (s : GameState) : GameState :=
  let p := player id s in
  match deck p with
  | card :: rest =>
      addLog (LogDraw id (name card))
        (setPlayer id (setHand (hand p ++ [card]) (setDeck rest p)) s)
  | [] => s
  end.

(** [_findAttackCard] *)
Definition findAttackCard (id : Side) (s : GameState) : option Card :=
  find isAttack (hand (player id s)).

(** [_applyCardEffects], first block: heat change. *)
Definition applyHeat (id : Side) (card : Card) (s : GameState) : GameState :=
  match ifSet (heatChange card) with
  | Some h =>
      let p := player id s in
      let newHeat := heat p + h in
      addLog (LogHeat id h newHeat) (setPlayer id (setHeat newHeat p) s)
  | None => s
  end.

(** The number subtracted from the opponent's hp:
    [Math.max(0, Math.floor(damage * attackMultiplier * defenseMultiplier))]. *)
Definition finalDamage (d attackerHeat referenceHeat : Q) : Z :=
  let attackMultiplier := attackerHeat / 100 in
  let defenseMultiplier := 1 - referenceHeat / 100 in
  Z.max 0 (Qfloor (d * attackMultiplier * defenseMultiplier)).

(** [_applyCardEffects], second block: damage. *)
Definition applyDamage (id : Side) (card : Card) (isInsertAttack : bool)
    (s : GameState) : GameState :=
  let p := player id s in
  let opponentId := getOpponent id in
  let opponent := player opponentId s in
  match ifSet (damage card) with
  | Some d =>
      if isAttack card then
        let attackMultiplier := heat p / 100 in
        let reference := if isInsertAttack then heat opponent else heat p in
        let defenseMultiplier := 1 - reference / 100 in
        let final := finalDamage d (heat p) reference in
        addLog (LogDamage id opponentId final d attackMultiplier defenseMultiplier)
          (setPlayer opponentId (setHp (hp opponent - inject_Z final) opponent) s)
      else s
  | None => s
  end.

(** [_applyCardEffects], third block: heal. *)
Definition applyHeal (id : Side) (card : Card) (s : GameState) : GameState :=
  match ifSet (heal card) with
  | Some h =>
      let p := player id s in
      let newHp := Qmin 100 (hp p + h) in
      addLog (LogHeal id h newHp) (setPlayer id (setHp newHp p) s)
  | None => s
  end.

(** [_applyCardEffects(playerId, card, isInsertAttack)] *)
Definition applyCardEffects (id : Side) (card : Card) (isInsertAttack : bool)
    (s : GameState) : GameState :=
  applyHeal id card (applyDamage id card isInsertAttack (applyHeat id card s)).

(** [_checkInsertTurn(attacker, defender)] *)
Definition checkInsertTurn (attacker defender : Side) (s : GameState) : GameState :=
  let att := player attacker s in
  let def := player defender s in
  let heatDiff := heat att - heat def in
  if Qltb 50 heatDiff then
    let s1 := addLog (LogInsertGranted defender heatDiff) s in
    match findAttackCard defender s1 with
    | Some attackCard =>
        applyCardEffects defender attackCard true
          (addLog (LogInsertAttack defender (name attackCard)) s1)
    | None => s1
    end
  else s.

(** [_checkOverheat] *)
Definition checkOverheat (id : Side) (s : GameState) : GameState :=
  let p := player id s in
  if Qltb 100 (heat p) then
    let s1 := addLog (LogOverheat id) s in
    let p1' := player id s1 in
    setPlayer id (setHeat 0 (setSkipped true p1')) s1
  else s.

(** [_checkGameOver]: the verdict and the state with the winner logged. *)
Definition checkGameOver (s : GameState) : bool * GameState :=
  if Qle_bool (hp (p1 s)) 0 then (true, addLog (LogWins P2) s)
  else if Qle_bool (hp (p2 s)) 0 then (true, addLog (LogWins P1) s)
  else (false, s).

(** [_endTurn]: the next [startTurn] is not run here, only scheduled. *)
Definition endTurn (s : GameState) : GameState :=
  let s1 := addLog (LogTurnEnd (turn s)) s in
  let s2 := setPhase PhEnd (setTurn (getOpponent (turn s1)) s1) in
  let (over, s3) := checkGameOver s2 in
  if over then addLog LogGameOver s3
  else setTimers (S (timers s3)) s3.

(** [startTurn] *)
Definition startTurn (s : GameState) : GameState :=
  let activePlayer := turn s in
  let opponent := getOpponent activePlayer in
  let s1 := setPhase PhStart s in
  if skipped (player activePlayer s1) then
    let s2 := addLog (LogSkipTurn activePlayer) s1 in
    let s3 := setPlayer activePlayer (setSkipped false (player activePlayer s2)) s2 in
    endTurn s3
  else
    let s2 := drawCard activePlayer s1 in
    let s3 := drawCard opponent s2 in
    setPhase PhAction (addLog (LogTurnStart activePlayer) s3).

(** [_resolveTurn] *)
Definition resolveTurn (s : GameState) : GameState :=
  let activePlayer := turn s in
  let opponent := getOpponent activePlayer in
  let s1 := checkInsertTurn activePlayer opponent s in
  let s2 := checkOverheat activePlayer s1 in
  let s3 := checkOverheat opponent s2 in
  endTurn s3.

(** [playCard(playerId, cardIndex)] *)
Definition playCard (id : Side) (cardIndex : Z) (s : GameState)
    : Outcome * GameState :=
  if negb (String.eqb (mode s) "classic") then (Threw InvalidMode, s)
  else
    let p := player id s in
    match at_index (hand p) cardIndex with
    | None => (Threw InvalidCard, s)
    | Some card =>
        let s1 := setPlayer id (setHand (splice1 cardIndex (hand p)) p) s in
        let s2 := addLog (LogPlay id (name card)) s1 in
        let s3 := applyCardEffects id card false s2 in
        if Phase_eqb (phase s3) PhAction && Side_eqb id (turn s3) then
          (Returned, addLog (LogDefendNext (getOpponent id)) (setPhase PhDefense s3))
        else if Phase_eqb (phase s3) PhDefense && negb (Side_eqb id (turn s3)) then
          (Returned, resolveTurn s3)
        else (Returned, s3)
    end.

(** The four branches of [_resolveSimultaneousTurn], up to the clearing of
    the selections. *)
Definition simultaneousEffects (p1Card p2Card : Card) (s : GameState) : GameState :=
  let s0 := addLog (LogReveal (name p1Card) (name p2Card)) s in
  if isAttack p1Card && isAttack p2Card then
    let s1 := addLog LogAttackVsAttack s0 in
    let s2 := applyCardEffects P1 p1Card false s1 in
    applyCardEffects P2 p2Card false s2
  else if isAttack p1Card && isDefense p2Card then
    let s1 := addLog LogP1AttacksP2Defends s0 in
    let s2 := applyCardEffects P1 p1Card false s1 in
    let s3 := applyCardEffects P2 p2Card false s2 in
    checkInsertTurn P1 P2 s3
  else if isDefense p1Card && isAttack p2Card then
    let s1 := addLog LogP2AttacksP1Defends s0 in
    let s2 := applyCardEffects P1 p1Card false s1 in
    let s3 := applyCardEffects P2 p2Card false s2 in
    checkInsertTurn P2 P1 s3
  else
    let s1 := addLog LogBothDefend s0 in
    let s2 := applyCardEffects P1 p1Card false s1 in
    applyCardEffects P2 p2Card false s2.

(** [delete this.state.players.p1.selectedCard] and the same for p2. *)
Definition clearSelections (s : GameState) : GameState :=
  let s1 := setPlayer P1 (setSelectedCard None (player P1 s)) s in
  setPlayer P2 (setSelectedCard None (player P2 s1)) s1.

(** [_resolveSimultaneousTurn]: reading [.name] of a missing selection is
    a [TypeError], raised before anything is written. *)
Definition resolveSimultaneousTurn (s : GameState) : Outcome * GameState :=
  match selectedCard (p1 s), selectedCard (p2 s) with
  | Some p1Card, Some p2Card =>
      let s1 := simultaneousEffects p1Card p2Card s in
      let s2 := clearSelections s1 in
      let s3 := checkOverheat P1 s2 in
      let s4 := checkOverheat P2 s3 in
      (Returned, endTurn s4)
  | _, _ => (Threw TypeError, s)
  end.

(** [playCardSimultaneous(playerId, cardIndex)] *)
Definition playCardSimultaneous (id : Side) (cardIndex : Z) (s : GameState)
    : Outcome * GameState :=
  if negb (String.eqb (mode s) "simultaneous") then (Threw InvalidMode, s)
  else
    let p := player id s in
    match at_index (hand p) cardIndex with
    | None => (Threw InvalidCard, s)
    | Some card =>
        let s1 := setPlayer id (setSelectedCard (Some card) p) s in
        let s2 := setPlayer id
                    (setHand (splice1 cardIndex (hand (player id s1))) (player id s1)) s1 in
        let s3 := addLog (LogSelect id) s2 in
        match selectedCard (p1 s3), selectedCard (p2 s3) with
        | Some _, Some _ => resolveSimultaneousTurn s3
        | _, _ => (Returned, s3)
        end
    end.

(** ** Runs of the engine *)

(** What can happen to a game: the caller invokes a public method, or the
    host fires a [startTurn] scheduled by [_endTurn]. *)
Inductive Call : Type :=
| CallStartTurn
| CallPlayCard (id : Side) (cardIndex : Z)
| CallPlayCardSimultaneous (id : Side) (cardIndex : Z)
| TimerFires.

Definition exec (c : Call) (s : GameState) : GameState :=
  match c with
  | CallStartTurn => startTurn s
  | CallPlayCard id i => snd (playCard id i s)
  | CallPlayCardSimultaneous id i => snd (playCardSimultaneous id i s)
  | TimerFires =>
      match timers s with
      | S n => startTurn (setTimers n s)
      | O => s
      end
  end.

Definition run (cs : list Call) (s : GameState) : GameState :=
  fold_left (fun st c => exec c st) cs s.

(** The states a game can be in: those some sequence of calls produces
    from a freshly constructed game. *)
Definition reachable (s : GameState) : Prop :=
  exists d1 d2 m cs, s = run cs (newGame d1 d2 m).

(** * The same engine on binary64 numbers

    The engine above computes with exact rationals, which is all that the
    structural properties need.  What the source computes with is the
    JavaScript number, an IEEE 754 binary64 value: every [+], [-], [*] and
    [/] rounds to nearest, a sum can overflow to [Infinity] and a product
    can be [NaN].  [Binary64] is the engine again, method by method, on
    Rocq's primitive binary64 floats; the properties that depend on the
    value of a computed number are stated about it. *)
Module Binary64.

Import FloatClass PrimFloat SpecFloat FloatOps.
Local Open Scope float_scope.

(** ** Numbers of the host language *)

(** Truthiness of a number: [0], [-0] and [NaN] are falsy. *)
Definition truthy (x : float) : bool := (x <? 0) || (0 <? x).

Definition ifSet (x : option float) : option float :=
  match x with
  | Some v => if truthy v then Some v else None
  | None => None
  end.

(** [Math.floor]: the value itself for a NaN, an infinity, a zero or a
    number without fractional bits; otherwise the integer below
    [(-1)^s * m * 2^e], which is below [2^53] in magnitude and converts
    without rounding. *)
Definition Math_floor (x : float) : float :=
  match Prim2SF x with
  | S754_finite s m e =>
      if (0 <=? e)%Z then x
      else
        let scale := (2 ^ (- e))%Z in
        let q := (Zpos m / scale)%Z in
        let exact := (Zpos m mod scale =? 0)%Z in
        if s then - of_uint63 (Uint63.of_Z (if exact then q else q + 1))
        else of_uint63 (Uint63.of_Z q)
  | _ => x
  end.

Definition isNegZero (x : float) : bool :=
  match classify x with NZero => true | _ => false end.

(** [Math.max] and [Math.min] of two numbers: NaN if either is, and [-0]
    counts as smaller than [+0]. *)
Definition Math_max (x y : float) : float :=
  if is_nan x || is_nan y then nan
  else if x <? y then y
  else if y <? x then x
  else if isNegZero x then y else x.

Definition Math_min (x y : float) : float :=
  if is_nan x || is_nan y then nan
  else if x <? y then x
  else if y <? x then y
  else if isNegZero y then y else x.

(** ** Data model *)

Record Card : Type := mkCard {
  name : string;
  type : string;
  damage : option float;
  heatChange : option float;
  heal : option float
}.

Inductive LogEvent : Type :=
| LogInit (m : string)
| LogSkipTurn (p : Side)
| LogDraw (p : Side) (card : string)
| LogTurnStart (p : Side)
| LogPlay (p : Side) (card : string)
| LogDefendNext (p : Side)
| LogSelect (p : Side)
| LogReveal (c1 c2 : string)
| LogAttackVsAttack
| LogP1AttacksP2Defends
| LogP2AttacksP1Defends
| LogBothDefend
| LogInsertGranted (defender : Side) (heatDiff : float)
| LogInsertAttack (defender : Side) (card : string)
| LogHeat (p : Side) (change newHeat : float)
| LogDamage (p opp : Side) (final raw attackMul defenseMul : float)
| LogHeal (p : Side) (amount newHp : float)
| LogOverheat (p : Side)
| LogTurnEnd (p : Side)
| LogWins (p : Side)
| LogGameOver.

Record PlayerState : Type := mkPlayer {
  hp : float;
  heat : float;
  skipped : bool;
  hand : list Card;
  deck : list Card;
  selectedCard : option Card
}.

Record GameState : Type := mkState {
  p1 : PlayerState;
  p2 : PlayerState;
  turn : Side;
  phase : Phase;
  mode : string;
  log : list LogEvent;
  timers : nat
}.

Definition setHp (v : float) (p : PlayerState) : PlayerState :=
  mkPlayer v (heat p) (skipped p) (hand p) (deck p) (selectedCard p).

Definition setHeat (v : float) (p : PlayerState) : PlayerState :=
  mkPlayer (hp p) v (skipped p) (hand p) (deck p) (selectedCard p).

Definition setSkipped (v : bool) (p : PlayerState) : PlayerState :=
  mkPlayer (hp p) (heat p) v (hand p) (deck p) (selectedCard p).

Definition setHand (v : list Card) (p : PlayerState) : PlayerState :=
  mkPlayer (hp p) (heat p) (skipped p) v (deck p) (selectedCard p).

Definition setDeck (v : list Card) (p : PlayerState) : PlayerState :=
  mkPlayer (hp p) (heat p) (skipped p) (hand p) v (selectedCard p).

Definition setSelectedCard (v : option Card) (p : PlayerState) : PlayerState :=
  mkPlayer (hp p) (heat p) (skipped p) (hand p) (deck p) v.

Definition player (id : Side) (s : GameState) : PlayerState :=
  match id with P1 => p1 s | P2 => p2 s end.

Definition setPlayer (id : Side) (p : PlayerState) (s : GameState) : GameState :=
  match id with
  | P1 => mkState p (p2 s) (turn s) (phase s) (mode s) (log s) (timers s)
  | P2 => mkState (p1 s) p (turn s) (phase s) (mode s) (log s) (timers s)
  end.

Definition setTurn (v : Side) (s : GameState) : GameState :=
  mkState (p1 s) (p2 s) v (phase s) (mode s) (log s) (timers s).

Definition setPhase (v : Phase) (s : GameState) : GameState :=
  mkState (p1 s) (p2 s) (turn s) v (mode s) (log s) (timers s).

Definition setTimers (v : nat) (s : GameState) : GameState :=
  mkState (p1 s) (p2 s) (turn s) (phase s) (mode s) (log s) v.

Definition addLog (e : LogEvent) (s : GameState) : GameState :=
  mkState (p1 s) (p2 s) (turn s) (phase s) (mode s) (log s ++ [e]) (timers s).

Definition isAttack (c : Card) : bool := String.eqb (type c) "attack".
Definition isDefense (c : Card) : bool := String.eqb (type c) "defense".

(** ** The engine *)

(** [constructor(player1Deck, player2Deck, mode)] *)
Definition newPlayer (d : list Card) : PlayerState :=
  mkPlayer 100 0 false [] d None.

Definition newGame (player1Deck player2Deck : list Card) (m : string) : GameState :=
  addLog (LogInit m)
    (mkState (newPlayer player1Deck) (newPlayer player2Deck) P1 PhStart m [] 0).

(** [_drawCard] *)
Definition drawCard (id : Side) (s : GameState) : GameState :=
  let p := player id s in
  match deck p with
  | card :: rest =>
      addLog (LogDraw id (name card))
        (setPlayer id (setHand (hand p ++ [card]) (setDeck rest p)) s)
  | [] => s
  end.

(** [_findAttackCard] *)
Definition findAttackCard (id : Side) (s : GameState) : option Card :=
  find isAttack (hand (player id s)).

(** [_applyCardEffects], first block: [player.heat += card.heatChange]. *)
Definition applyHeat (id : Side) (card : Card) (s : GameState) : GameState :=
  match ifSet (heatChange card) with
  | Some h =>
      let p := player id s in
      let newHeat := heat p + h in
      addLog (LogHeat id h newHeat) (setPlayer id (setHeat newHeat p) s)
  | None => s
  end.

(** [Math.max(0, Math.floor(damage * attackMultiplier * defenseMultiplier))],
    the two products taken in the order of the source. *)
Definition finalDamage (d attackerHeat referenceHeat : float) : float :=
  let attackMultiplier := attackerHeat / 100 in
  let raw := d * attackMultiplier in
  let defenseMultiplier := 1 - referenceHeat / 100 in
  Math_max 0 (Math_floor (raw * defenseMultiplier)).

(** [_applyCardEffects], second block: [opponent.hp -= finalDamage]. *)
Definition applyDamage (id : Side) (card : Card) (isInsertAttack : bool)
    (s : GameState) : GameState :=
  let p := player id s in
  let opponentId := getOpponent id in
  let opponent := player opponentId s in
  match ifSet (damage card) with
  | Some d =>
      if isAttack card then
        let attackMultiplier := heat p / 100 in
        let reference := if isInsertAttack then heat opponent else heat p in
        let defenseMultiplier := 1 - reference / 100 in
        let final := finalDamage d (heat p) reference in
        addLog (LogDamage id opponentId final d attackMultiplier defenseMultiplier)
          (setPlayer opponentId (setHp (hp opponent - final) opponent) s)
      else s
  | None => s
  end.

(** [_applyCardEffects], third block:
    [player.hp = Math.min(100, player.hp + card.heal)]. *)
Definition applyHeal (id : Side) (card : Card) (s : GameState) : GameState :=
  match ifSet (heal card) with
  | Some h =>
      let p := player id s in
      let newHp := Math_min 100 (hp p + h) in
      addLog (LogHeal id h newHp) (setPlayer id (setHp newHp p) s)
  | None => s
  end.

(** [_applyCardEffects(playerId, card, isInsertAttack)] *)
Definition applyCardEffects (id : Side) (card : Card) (isInsertAttack : bool)
    (s : GameState) : GameState :=
  applyHeal id card (applyDamage id card isInsertAttack (applyHeat id card s)).

(** [_checkInsertTurn(attacker, defender)]: the test is on the computed
    difference [att.heat - def.heat]. *)
Definition checkInsertTurn (attacker defender : Side) (s : GameState) : GameState :=
  let att := player attacker s in
  let def := player defender s in
  let heatDiff := heat att - heat def in
  if 50 <? heatDiff then
    let s1 := addLog (LogInsertGranted defender heatDiff) s in
    match findAttackCard defender s1 with
    | Some attackCard =>
        applyCardEffects defender attackCard true
          (addLog (LogInsertAttack defender (name attackCard)) s1)
    | None => s1
    end
  else s.

(** [_checkOverheat] *)
Definition checkOverheat (id : Side) (s : GameState) : GameState :=
  let p := player id s in
  if 100 <? heat p then
    let s1 := addLog (LogOverheat id) s in
    let p1' := player id s1 in
    setPlayer id (setHeat 0 (setSkipped true p1')) s1
  else s.

(** [_checkGameOver] *)
Definition checkGameOver (s : GameState) : bool * GameState :=
  if hp (p1 s) <=? 0 then (true, addLog (LogWins P2) s)
  else if hp (p2 s) <=? 0 then (true, addLog (LogWins P1) s)
  else (false, s).

(** [_endTurn] *)
Definition endTurn (s : GameState) : GameState :=
  let s1 := addLog (LogTurnEnd (turn s)) s in
  let s2 := setPhase PhEnd (setTurn (getOpponent (turn s1)) s1) in
  let (over, s3) := checkGameOver s2 in
  if over then addLog LogGameOver s3
  else setTimers (S (timers s3)) s3.

(** [startTurn] *)
Definition startTurn (s : GameState) : GameState :=
  let activePlayer := turn s in
  let opponent := getOpponent activePlayer in
  let s1 := setPhase PhStart s in
  if skipped (player activePlayer s1) then
    let s2 := addLog (LogSkipTurn activePlayer) s1 in
    let s3 := setPlayer activePlayer (setSkipped false (player activePlayer s2)) s2 in
    endTurn s3
  else
    let s2 := drawCard activePlayer s1 in
    let s3 := drawCard opponent s2 in
    setPhase PhAction (addLog (LogTurnStart activePlayer) s3).

(** [_resolveTurn] *)
Definition resolveTurn (s : GameState) : GameState :=
  let activePlayer := turn s in
  let opponent := getOpponent activePlayer in
  let s1 := checkInsertTurn activePlayer opponent s in
  let s2 := checkOverheat activePlayer s1 in
  let s3 := checkOverheat opponent s2 in
  endTurn s3.

(** [playCard(playerId, cardIndex)] *)
Definition playCard (id : Side) (cardIndex : Z) (s : GameState)
    : Outcome * GameState :=
  if negb (String.eqb (mode s) "classic") then (Threw InvalidMode, s)
  else
    let p := player id s in
    match at_index (hand p) cardIndex with
    | None => (Threw InvalidCard, s)
    | Some card =>
        let s1 := setPlayer id (setHand (splice1 cardIndex (hand p)) p) s in
        let s2 := addLog (LogPlay id (name card)) s1 in
        let s3 := applyCardEffects id card false s2 in
        if Phase_eqb (phase s3) PhAction && Side_eqb id (turn s3) then
          (Returned, addLog (LogDefendNext (getOpponent id)) (setPhase PhDefense s3))
        else if Phase_eqb (phase s3) PhDefense && negb (Side_eqb id (turn s3)) then
          (Returned, resolveTurn s3)
        else (Returned, s3)
    end.

(** The four branches of [_resolveSimultaneousTurn]. *)
Definition simultaneousEffects (p1Card p2Card : Card) (s : GameState) : GameState :=
  let s0 := addLog (LogReveal (name p1Card) (name p2Card)) s in
  if isAttack p1Card && isAttack p2Card then
    let s1 := addLog LogAttackVsAttack s0 in
    let s2 := applyCardEffects P1 p1Card false s1 in
    applyCardEffects P2 p2Card false s2
  else if isAttack p1Card && isDefense p2Card then
    let s1 := addLog LogP1AttacksP2Defends s0 in
    let s2 := applyCardEffects P1 p1Card false s1 in
    let s3 := applyCardEffects P2 p2Card false s2 in
    checkInsertTurn P1 P2 s3
  else if isDefense p1Card && isAttack p2Card then
    let s1 := addLog LogP2AttacksP1Defends s0 in
    let s2 := applyCardEffects P1 p1Card false s1 in
    let s3 := applyCardEffects P2 p2Card false s2 in
    checkInsertTurn P2 P1 s3
  else
    let s1 := addLog LogBothDefend s0 in
    let s2 := applyCardEffects P1 p1Card false s1 in
    applyCardEffects P2 p2Card false s2.

Definition clearSelections (s : GameState) : GameState :=
  let s1 := setPlayer P1 (setSelectedCard None (player P1 s)) s in
  setPlayer P2 (setSelectedCard None (player P2 s1)) s1.

(** [_resolveSimultaneousTurn] *)
Definition resolveSimultaneousTurn (s : GameState) : Outcome * GameState :=
  match selectedCard (p1 s), selectedCard (p2 s) with
  | Some p1Card, Some p2Card =>
      let s1 := simultaneousEffects p1Card p2Card s in
      let s2 := clearSelections s1 in
      let s3 := checkOverheat P1 s2 in
      let s4 := checkOverheat P2 s3 in
      (Returned, endTurn s4)
  | _, _ => (Threw TypeError, s)
  end.

(** [playCardSimultaneous(playerId, cardIndex)] *)
Definition playCardSimultaneous (id : Side) (cardIndex : Z) (s : GameState)
    : Outcome * GameState :=
  if negb (String.eqb (mode s) "simultaneous") then (Threw InvalidMode, s)
  else
    let p := player id s in
    match at_index (hand p) cardIndex with
    | None => (Threw InvalidCard, s)
    | Some card =>
        let s1 := setPlayer id (setSelectedCard (Some card) p) s in
        let s2 := setPlayer id
                    (setHand (splice1 cardIndex (hand (player id s1))) (player id s1)) s1 in
        let s3 := addLog (LogSelect id) s2 in
        match selectedCard (p1 s3), selectedCard (p2 s3) with
        | Some _, Some _ => resolveSimultaneousTurn s3
        | _, _ => (Returned, s3)
        end
    end.

(** ** Runs *)

Definition exec (c : Call) (s : GameState) : GameState :=
  match c with
  | CallStartTurn => startTurn s
  | CallPlayCard id i => snd (playCard id i s)
  | CallPlayCardSimultaneous id i => snd (playCardSimultaneous id i s)
  | TimerFires =>
      match timers s with
      | S n => startTurn (setTimers n s)
      | O => s
      end
  end.

Definition run (cs : list Call) (s : GameState) : GameState :=
  fold_left (fun st c => exec c st) cs s.

Definition reachable (s : GameState) : Prop :=
  exists d1 d2 m cs, s = run cs (newGame d1 d2 m).

(** ** Views of the state used in the statements *)

Definition cardsOf (p : PlayerState) : list Card * list Card * option Card :=
  (hand p, deck p, selectedCard p).

Definition control (s : GameState) : Side * Phase * string * nat :=
  (turn s, phase s, mode s, timers s).

Definition isEffectEvent (e : LogEvent) : bool :=
  match e with
  | LogHeat _ _ _ | LogDamage _ _ _ _ _ _ | LogHeal _ _ _ => true
  | _ => false
  end.

Definition isInsertAttackEvent (e : LogEvent) : bool :=
  match e with LogInsertAttack _ _ => true | _ => false end.

Definition insertAttacks (l : list LogEvent) : nat :=
  List.length (filter isInsertAttackEvent l).

Definition addsEffectEvents (s s' : GameState) : Prop :=
  exists evs, log s' = log s ++ evs /\ forallb isEffectEvent evs = true.

(** ** Sample cards and games *)

(** The sample cards at the end of the source file. *)
Definition heavyStrike : Card := mkCard "重击" "attack" (Some 25) (Some 30) None.
Definition quickStab : Card := mkCard "快刺" "attack" (Some 10) (Some 10) None.
Definition block : Card := mkCard "格挡" "defense" None (Some (-20)) None.
Definition vent : Card := mkCard "散热" "defense" None (Some (-40)) None.

Definition exampleCards : list Card := [heavyStrike; quickStab; block; vent].

(** A defense that does nothing, an attack that does not heat, an attack
    that heats by 60 and one that heats by [2^1023], half way to
    overflow. *)
Definition idle : Card := mkCard "idle" "defense" None None None.
Definition coldHit : Card := mkCard "cold hit" "attack" (Some 10) None None.
Definition overdrive : Card := mkCard "overdrive" "attack" (Some 10) (Some 60) None.
Definition surge : Card := mkCard "surge" "attack" (Some 10) (Some 0x1p+1023) None.

(** A card that only heals, by a tenth. *)
Definition salve : Card := mkCard "salve" "defense" None None (Some (1 / 10)).

(** The source's sample game after six [startTurn]s and three plays of
    p1 (heavy strike, quick stab, quick stab): p1 is at heat 50 and still
    holds a heavy strike. *)
Definition warmedUp : GameState :=
  run [CallStartTurn; CallStartTurn; CallStartTurn; CallStartTurn; CallStartTurn;
       CallStartTurn; CallPlayCard P1 0; CallPlayCard P1 0; CallPlayCard P1 3]
    (newGame (exampleCards ++ exampleCards) (exampleCards ++ exampleCards) "classic").

(** The state [playCard] hands to [_resolveTurn] when the defender [id]
    answers with the card at index 0 of its hand. *)
Definition answered (id : Side) (card : Card) (s : GameState) : GameState :=
  let p := player id s in
  applyCardEffects id card false
    (addLog (LogPlay id (name card)) (setPlayer id (setHand (splice1 0 (hand p)) p) s)).

(** p1 has played [overdrive] (heat 60) and p2 has answered with its only
    card, a block (heat -20): the turn is about to be resolved. *)
Definition hotDuel : GameState :=
  answered P2 block
    (run [CallStartTurn; CallPlayCard P1 0] (newGame [overdrive] [block] "classic")).

(** Attacker p1 and defender p2, who holds a block and two attacks, at
    the given heats. *)
Definition facing (attackerHeat defenderHeat : float) : GameState :=
  mkState (mkPlayer 100 attackerHeat false [] [] None)
          (mkPlayer 100 defenderHeat false [block; quickStab; heavyStrike] [] None)
          P1 PhDefense "classic" [] 0.

(** A classic game in which p1 plays [surge] twice and p2 answers with
    [idle], holding [coldHit]. *)
Definition surgeCalls : list Call :=
  [CallStartTurn; CallStartTurn; CallPlayCard P1 0; CallPlayCard P1 0; CallPlayCard P2 0].

Definition surged : GameState :=
  run surgeCalls (newGame [surge; surge] [idle; coldHit] "classic").

End Binary64.

(** ** Views of the state and sample games used in the statements *)

(** The part of a side that card effects never touch. *)
Definition cardsOf (p : PlayerState) : list Card * list Card * option Card :=
  (hand p, deck p, selectedCard p).

(** The part of the game that is not a side's and not the trace. *)
Definition control (s : GameState) : Side * Phase * string * nat :=
  (turn s, phase s, mode s, timers s).

(** Messages written by [_applyCardEffects]. *)
Definition isEffectEvent (e : LogEvent) : bool :=
  match e with
  | LogHeat _ _ _ | LogDamage _ _ _ _ _ _ | LogHeal _ _ _ => true
  | _ => false
  end.

(** Messages written by [_checkInsertTurn] itself. *)
Definition isInsertAttackEvent (e : LogEvent) : bool :=
  match e with LogInsertAttack _ _ => true | _ => false end.

Definition isInsertGrantedEvent (e : LogEvent) : bool :=
  match e with LogInsertGranted _ _ => true | _ => false end.

(** Number of insert attacks / insert announcements a trace records. *)
Definition insertAttacks (l : list LogEvent) : nat :=
  List.length (filter isInsertAttackEvent l).

Definition insertGrants (l : list LogEvent) : nat :=
  List.length (filter isInsertGrantedEvent l).

(** [s'] has the trace of [s] followed by card-effect messages only. *)
Definition addsEffectEvents (s s' : GameState) : Prop :=
  exists evs, log s' = log s ++ evs /\ forallb isEffectEvent evs = true.

(** The sample cards at the end of the source file. *)
Definition heavyStrike : Card := mkCard "重击" "attack" (Some 25) (Some 30) None.
Definition quickStab : Card := mkCard "快刺" "attack" (Some 10) (Some 10) None.
Definition block : Card := mkCard "格挡" "defense" None (Some (-20)) None.
Definition vent : Card := mkCard "散热" "defense" None (Some (-40)) None.

Definition exampleCards : list Card := [heavyStrike; quickStab; block; vent].

(** An attack that heats its owner by 60 at once, and one that does not
    heat at all. *)
Definition overdrive : Card := mkCard "overdrive" "attack" (Some 10) (Some 60) None.
Definition coldHit : Card := mkCard "cold hit" "attack" (Some 10) None None.


(** The game the source file sets up: sample decks doubled, classic mode,
    first turn started. *)
Definition opening : GameState :=
  startTurn (newGame (exampleCards ++ exampleCards) (exampleCards ++ exampleCards) "classic").

(** The state [playCard] hands to [_resolveTurn] when the defender [id]
    answers with the card at index 0 of its hand. *)
Definition answered (id : Side) (card : Card) (s : GameState) : GameState :=
  let p := player id s in
  applyCardEffects id card false
    (addLog (LogPlay id (name card)) (setPlayer id (setHand (splice1 0 (hand p)) p) s)).

(** A classic duel in which p1 has just played [overdrive] and p2 has
    answered with a block, the only card it held: p1 is at heat 60, p2 at
    heat -20 with an empty hand, and the turn is about to be resolved. *)
Definition hotDuel : GameState :=
  answered P2 block
    (run [CallStartTurn; CallPlayCard P1 0] (newGame [overdrive] [block] "classic")).

(** A duel at a gap of exactly 50: p1 played the heavy strike (heat 30),
    p2 answered with a block (heat -20) and still holds an attack card. *)
Definition gap50 : GameState :=
  answered P2 block
    (run [CallStartTurn; CallStartTurn; CallPlayCard P1 0]
       (newGame [heavyStrike; vent] [block; quickStab] "classic")).

(** One turn later in a longer duel of the same kind: p2 opened with a
    block and p1 answered with a second [overdrive], reaching heat 120. *)
Definition boilingDuel : GameState :=
  answered P1 overdrive
    (run [CallStartTurn; CallPlayCard P1 0; CallPlayCard P2 0; TimerFires; CallPlayCard P2 0]
       (newGame [overdrive; overdrive] [block; block] "classic")).

(** [boilingDuel] resolved: p1 overheated and will skip its turn. *)
Definition overheated : GameState := resolveTurn boilingDuel.


(** Both sides at or below 0 hp at the end of a turn. *)
Definition doubleKnockout : GameState :=
  mkState (mkPlayer (-3) 40 false [] [] None) (mkPlayer 0 40 false [] [] None)
          P1 PhDefense "simultaneous" [] 0.

(** A simultaneous game in which both sides hold two cards. *)
Definition twoInHand : GameState :=
  run [CallStartTurn; CallStartTurn] (newGame exampleCards exampleCards "simultaneous").



(** What [_endTurn] writes after the end-of-turn line: the winner and the
    end of the game, when [_checkGameOver] says so. *)
Definition verdictEvents (s : GameState) : list LogEvent :=
  if Qle_bool (hp (p1 s)) 0 then [LogWins P2; LogGameOver]
  else if Qle_bool (hp (p2 s)) 0 then [LogWins P1; LogGameOver]
  else [].

(** The state after side [id] has staged [card] and given up the hand
    slot [i]: what [playCardSimultaneous] writes before it looks at the
    other side's selection. *)
Definition staged (id : Side) (i : Z) (card : Card) (s : GameState) : GameState :=
  addLog (LogSelect id)
    (setPlayer id
       (setHand (splice1 i (hand (player id s)))
          (setSelectedCard (Some card) (player id s))) s).

(** The cards a side holds: hand, then deck, then the staged card. *)
Definition held (p : PlayerState) : list Card :=
  hand p ++ deck p ++ match selectedCard p with Some c => [c] | None => [] end.

(** The state [playCard] reaches once the card at index [i] has left the
    hand of [id] and its effects have been applied, before the phase is
    looked at. *)
Definition played (id : Side) (i : Z) (card : Card) (s : GameState) : GameState :=
  let p := player id s in
  applyCardEffects id card false
    (addLog (LogPlay id (name card)) (setPlayer id (setHand (splice1 i (hand p)) p) s)).

(** [s'] has the trace of [s] as a prefix. *)
Definition extendsLog (s s' : GameState) : Prop :=
  exists evs, log s' = log s ++ evs.

(** Whether the overheat check finds side [x] above 100. *)
Definition overheats (x : Side) (s : GameState) : bool := Qltb 100 (heat (player x s)).

(** A step from [s] to [s'] that neither moves a card nor changes the
    mode, and only adds to the trace. *)
Definition quiet (s s' : GameState) : Prop :=
  mode s' = mode s
  /\ extendsLog s s'
  /\ forall x : Side, cardsOf (player x s') = cardsOf (player x s).

(** Side [p'] holds no card that [p] did not hold, and no more cards. *)
Definition shrinks (p p' : PlayerState) : Prop :=
  incl (held p') (held p) /\ (List.length (held p') <= List.length (held p))%nat.

(** At most one staging slot is occupied. *)
Definition notBothStaged (s : GameState) : Prop :=
  selectedCard (p1 s) = None \/ selectedCard (p2 s) = None.


(** ** Arithmetic facts *)

Lemma Qltb_true (x y : Q) : Qltb x y = true <-> x < y.
Proof.
  unfold Qltb. rewrite Qlt_alt. destruct (x ?= y); split; congruence.
Qed.

Lemma Qltb_false (x y : Q) : Qltb x y = false <-> y <= x.
Proof.
  rewrite <- Bool.not_true_iff_false, Qltb_true. split.
  - apply Qnot_lt_le.
  - apply Qle_not_lt.
Qed.


Lemma finalDamage_nonneg (d a r : Q) : 0 <= inject_Z (finalDamage d a r).
Proof.
  unfold finalDamage. change 0 with (inject_Z 0). rewrite <- Zle_Qle. lia.
Qed.

Lemma ifSet_Some (x : option Q) (q : Q) : ifSet x = Some q -> x = Some q /\ ~ q == 0.
Proof.
  destruct x as [v |]; simpl; [| discriminate].
  destruct (Qeq_bool v 0) eqn:E; [discriminate |].
  intros [= ->]. split; [reflexivity |].
  intros H. apply Qeq_bool_iff in H. congruence.
Qed.


(** ** What each step leaves alone *)

Lemma getOpponent_neq (id : Side) : getOpponent id <> id.
Proof. destruct id; discriminate. Qed.

Lemma player_setPlayer_same (id : Side) (p : PlayerState) (s : GameState) :
  player id (setPlayer id p s) = p.
Proof. destruct id; reflexivity. Qed.

Lemma player_setPlayer_other (id x : Side) (p : PlayerState) (s : GameState) :
  x <> id -> player x (setPlayer id p s) = player x s.
Proof. destruct id, x; simpl; congruence. Qed.

Ltac by_cases_on_sides :=
  repeat match goal with
         | id : Side |- _ => destruct id
         end; simpl; try reflexivity; try congruence.

Lemma applyHeat_player (id x : Side) (card : Card) (s : GameState) :
  hp (player x (applyHeat id card s)) = hp (player x s)
  /\ skipped (player x (applyHeat id card s)) = skipped (player x s)
  /\ cardsOf (player x (applyHeat id card s)) = cardsOf (player x s)
  /\ (x <> id -> heat (player x (applyHeat id card s)) = heat (player x s)).
Proof.
  unfold applyHeat. destruct (ifSet (heatChange card)); [| tauto].
  by_cases_on_sides; tauto.
Qed.

Lemma applyDamage_player (id x : Side) (card : Card) (ins : bool) (s : GameState) :
  heat (player x (applyDamage id card ins s)) = heat (player x s)
  /\ skipped (player x (applyDamage id card ins s)) = skipped (player x s)
  /\ cardsOf (player x (applyDamage id card ins s)) = cardsOf (player x s)
  /\ (x <> getOpponent id -> hp (player x (applyDamage id card ins s)) = hp (player x s)).
Proof.
  unfold applyDamage. destruct (ifSet (damage card)); [| tauto].
  destruct (isAttack card); [| tauto].
  by_cases_on_sides; tauto.
Qed.

Lemma applyHeal_player (id x : Side) (card : Card) (s : GameState) :
  heat (player x (applyHeal id card s)) = heat (player x s)
  /\ skipped (player x (applyHeal id card s)) = skipped (player x s)
  /\ cardsOf (player x (applyHeal id card s)) = cardsOf (player x s)
  /\ (x <> id -> hp (player x (applyHeal id card s)) = hp (player x s)).
Proof.
  unfold applyHeal. destruct (ifSet (heal card)); [| tauto].
  by_cases_on_sides; tauto.
Qed.

Lemma applyCardEffects_cards (id x : Side) (card : Card) (ins : bool) (s : GameState) :
  cardsOf (player x (applyCardEffects id card ins s)) = cardsOf (player x s)
  /\ skipped (player x (applyCardEffects id card ins s)) = skipped (player x s).
Proof.
  unfold applyCardEffects.
  destruct (applyHeal_player id x card (applyDamage id card ins (applyHeat id card s)))
    as (_ & Hs3 & Hc3 & _).
  destruct (applyDamage_player id x card ins (applyHeat id card s)) as (_ & Hs2 & Hc2 & _).
  destruct (applyHeat_player id x card s) as (_ & Hs1 & Hc1 & _).
  split; congruence.
Qed.

Lemma applyCardEffects_control (id : Side) (card : Card) (ins : bool) (s : GameState) :
  control (applyCardEffects id card ins s) = control s.
Proof.
  unfold applyCardEffects, applyHeal, applyDamage, applyHeat.
  destruct (ifSet (heatChange card)), (ifSet (damage card)), (isAttack card),
    (ifSet (heal card)); destruct id; reflexivity.
Qed.

(** ** Damage *)




(** ** Overheat *)

Lemma checkOverheat_self (id : Side) (s : GameState) :
  let s' := checkOverheat id s in
  heat (player id s') <= 100
  /\ (100 < heat (player id s) ->
      skipped (player id s') = true /\ heat (player id s') = 0)
  /\ (heat (player id s) <= 100 -> player id s' = player id s).
Proof.
  unfold checkOverheat.
  destruct (Qltb 100 (heat (player id s))) eqn:E.
  - apply Qltb_true in E.
    destruct id; cbn [player setPlayer addLog setHeat setSkipped p1 p2 heat skipped] in *;
      (split; [lra | split; [intros _; split; reflexivity | intros H; lra]]).
  - apply Qltb_false in E.
    split; [exact E | split; [intros Hgt; lra | intros _; reflexivity]].
Qed.

Lemma checkOverheat_other (id x : Side) (s : GameState) :
  x <> id -> player x (checkOverheat id s) = player x s.
Proof.
  intros Hx. unfold checkOverheat.
  destruct (Qltb 100 (heat (player id s))); [| reflexivity].
  destruct id, x; try congruence; reflexivity.
Qed.

Lemma checkOverheat_frame (id x : Side) (s : GameState) :
  hp (player x (checkOverheat id s)) = hp (player x s)
  /\ cardsOf (player x (checkOverheat id s)) = cardsOf (player x s)
  /\ control (checkOverheat id s) = control s.
Proof.
  unfold checkOverheat.
  destruct (Qltb 100 (heat (player id s))); [| tauto].
  destruct id, x; repeat split.
Qed.

Lemma endTurn_players (x : Side) (s : GameState) :
  player x (endTurn s) = player x s.
Proof.
  unfold endTurn, checkGameOver. cbn [p1 p2 setPhase setTurn addLog hp].
  destruct (Qle_bool (hp (p1 s)) 0); [destruct x; reflexivity |].
  destruct (Qle_bool (hp (p2 s)) 0); destruct x; reflexivity.
Qed.

Lemma overheat_both (a : Side) (x : Side) (s : GameState) :
  let s' := checkOverheat (getOpponent a) (checkOverheat a s) in
  heat (player x s') <= 100
  /\ (100 < heat (player x s) ->
      skipped (player x s') = true /\ heat (player x s') = 0).
Proof.
  intros s'. subst s'.
  assert (Hcases : x = a \/ x = getOpponent a) by (destruct x, a; auto).
  destruct Hcases as [-> | ->].
  - rewrite checkOverheat_other
      by (intros H; symmetry in H; exact (getOpponent_neq a H)).
    destruct (checkOverheat_self a s) as (H1 & H2 & _). split; assumption.
  - destruct (checkOverheat_self (getOpponent a) (checkOverheat a s)) as (H1 & H2 & _).
    split; [assumption |]. intros H. apply H2.
    rewrite checkOverheat_other by apply getOpponent_neq. assumption.
Qed.

(** C2. After a full turn resolution, classic ([resolveTurn]) or
    simultaneous ([resolveSimultaneousTurn], which completes whenever both
    selections are present), neither side's heat exceeds 100; and every
    side whose heat exceeded 100 when the overheat checks ran ends with
    [skipped] true and heat exactly 0. *)
Theorem overheat_invariant (s : GameState) (x : Side) :
  (let checked := checkInsertTurn (turn s) (getOpponent (turn s)) s in
   let s' := resolveTurn s in
   heat (player x s') <= 100
   /\ (100 < heat (player x checked) ->
       skipped (player x s') = true /\ heat (player x s') = 0))
  /\ (forall c1 c2 : Card,
        selectedCard (p1 s) = Some c1 ->
        selectedCard (p2 s) = Some c2 ->
        let checked := clearSelections (simultaneousEffects c1 c2 s) in
        exists s',
          resolveSimultaneousTurn s = (Returned, s')
          /\ heat (player x s') <= 100
          /\ (100 < heat (player x checked) ->
              skipped (player x s') = true /\ heat (player x s') = 0)).
Proof.
  split.
  - intros checked s'. subst s'. unfold resolveTurn. fold checked.
    rewrite endTurn_players. apply (overheat_both (turn s) x checked).
  - intros c1 c2 H1 H2 checked. unfold resolveSimultaneousTurn.
    rewrite H1, H2. fold checked. eexists. split; [reflexivity |].
    rewrite endTurn_players. apply (overheat_both P1 x checked).
Qed.

(** In [boilingDuel] p1 enters the overheat check at heat 120 and leaves
    the resolution flagged and at heat 0. *)
Lemma overheat_invariant_boiling :
  skipped (player P1 (resolveTurn boilingDuel)) = true
  /\ heat (player P1 (resolveTurn boilingDuel)) = 0.
Proof.
  refine (proj2 (proj1 (overheat_invariant boilingDuel P1)) _).
  vm_compute. reflexivity.
Defined.

(** ** The trace of card effects and of the insert-turn check *)

Lemma addsEffectEvents_refl (s : GameState) : addsEffectEvents s s.
Proof. exists []. rewrite app_nil_r. split; reflexivity. Qed.

Lemma addsEffectEvents_trans (s1 s2 s3 : GameState) :
  addsEffectEvents s1 s2 -> addsEffectEvents s2 s3 -> addsEffectEvents s1 s3.
Proof.
  intros (e1 & H1 & F1) (e2 & H2 & F2). exists (e1 ++ e2).
  rewrite H2, H1, app_assoc, forallb_app, F1, F2. split; reflexivity.
Qed.

Lemma applyHeat_log (id : Side) (card : Card) (s : GameState) :
  addsEffectEvents s (applyHeat id card s).
Proof.
  unfold applyHeat. destruct (ifSet (heatChange card)) as [h |].
  - eexists [_]. destruct id; split; reflexivity.
  - apply addsEffectEvents_refl.
Qed.

Lemma applyDamage_log (id : Side) (card : Card) (ins : bool) (s : GameState) :
  addsEffectEvents s (applyDamage id card ins s).
Proof.
  unfold applyDamage. destruct (ifSet (damage card)) as [d |].
  - destruct (isAttack card); [| apply addsEffectEvents_refl].
    eexists [_]. destruct id; split; reflexivity.
  - apply addsEffectEvents_refl.
Qed.

Lemma applyHeal_log (id : Side) (card : Card) (s : GameState) :
  addsEffectEvents s (applyHeal id card s).
Proof.
  unfold applyHeal. destruct (ifSet (heal card)) as [h |].
  - eexists [_]. destruct id; split; reflexivity.
  - apply addsEffectEvents_refl.
Qed.

Lemma applyCardEffects_log (id : Side) (card : Card) (ins : bool) (s : GameState) :
  addsEffectEvents s (applyCardEffects id card ins s).
Proof.
  unfold applyCardEffects.
  eapply addsEffectEvents_trans; [apply applyHeat_log |].
  eapply addsEffectEvents_trans; [apply applyDamage_log | apply applyHeal_log].
Qed.





Lemma checkInsertTurn_cases (attacker defender : Side) (s : GameState) :
  let diff := heat (player attacker s) - heat (player defender s) in
  (diff <= 50 /\ checkInsertTurn attacker defender s = s)
  \/ (50 < diff /\ findAttackCard defender s = None
      /\ checkInsertTurn attacker defender s = addLog (LogInsertGranted defender diff) s)
  \/ (50 < diff /\ exists c, findAttackCard defender s = Some c
      /\ checkInsertTurn attacker defender s =
         applyCardEffects defender c true
           (addLog (LogInsertAttack defender (name c))
              (addLog (LogInsertGranted defender diff) s))).
Proof.
  intros diff. unfold checkInsertTurn. fold diff.
  destruct (Qltb 50 diff) eqn:E.
  - apply Qltb_true in E. right.
    assert (Hfind : findAttackCard defender (addLog (LogInsertGranted defender diff) s)
                    = findAttackCard defender s) by (destruct defender; reflexivity).
    rewrite Hfind.
    destruct (findAttackCard defender s) as [c |] eqn:Ec.
    + right. split; [assumption |]. exists c. split; reflexivity.
    + left. repeat split; assumption.
  - apply Qltb_false in E. left. split; [assumption | reflexivity].
Qed.



(** ** Insert turns *)




(** [hotDuel] is the state that the defender's [playCard] resolves, and
    the announcement is still in the trace when the call returns. *)
Lemma hotDuel_resolved :
  playCard P2 0 (run [CallStartTurn; CallPlayCard P1 0] (newGame [overdrive] [block] "classic"))
  = (Returned, resolveTurn hotDuel)
  /\ insertGrants (log (resolveTurn hotDuel)) = 1%nat
  /\ insertAttacks (log (resolveTurn hotDuel)) = 0%nat.
Proof. vm_compute. repeat split. Qed.

(** At a gap of exactly 50 the defender, attack card in hand, gets no
    insert turn. *)
Lemma gap50_no_insert :
  heat (player P1 gap50) - heat (player P2 gap50) == 50
  /\ findAttackCard P2 gap50 = Some quickStab
  /\ checkInsertTurn P1 P2 gap50 = gap50.
Proof.
  split; [vm_compute; reflexivity |]. split; reflexivity.
Qed.

(** ** Hands *)

Lemma checkInsertTurn_cards (attacker defender x : Side) (s : GameState) :
  cardsOf (player x (checkInsertTurn attacker defender s)) = cardsOf (player x s)
  /\ control (checkInsertTurn attacker defender s) = control s.
Proof.
  destruct (checkInsertTurn_cases attacker defender s)
    as [[_ ->] | [(_ & _ & ->) | (_ & c & _ & ->)]].
  - split; reflexivity.
  - destruct x; split; reflexivity.
  - rewrite applyCardEffects_control.
    rewrite (proj1 (applyCardEffects_cards defender x c true _)).
    destruct x; split; reflexivity.
Qed.

Lemma resolveTurn_cards (x : Side) (s : GameState) :
  cardsOf (player x (resolveTurn s)) = cardsOf (player x s).
Proof.
  unfold resolveTurn. rewrite endTurn_players.
  rewrite (proj1 (proj2 (checkOverheat_frame _ x _))).
  rewrite (proj1 (proj2 (checkOverheat_frame _ x _))).
  apply checkInsertTurn_cards.
Qed.

Lemma simultaneousEffects_cards (c1 c2 : Card) (x : Side) (s : GameState) :
  cardsOf (player x (simultaneousEffects c1 c2 s)) = cardsOf (player x s).
Proof.
  unfold simultaneousEffects.
  destruct (isAttack c1 && isAttack c2);
    [| destruct (isAttack c1 && isDefense c2);
       [| destruct (isDefense c1 && isAttack c2)]];
    repeat first
      [ rewrite (proj1 (checkInsertTurn_cards _ _ x _))
      | rewrite (proj1 (applyCardEffects_cards _ x _ _ _)) ];
    destruct x; reflexivity.
Qed.


Lemma splice1_length {A : Type} (i : Z) (l : list A) (a : A) :
  at_index l i = Some a -> S (List.length (splice1 i l)) = List.length l.
Proof.
  unfold at_index, splice1. destruct (i <? 0)%Z; [discriminate |].
  intros H.
  assert (Hlt : (Z.to_nat i < List.length l)%nat)
    by (apply nth_error_Some; congruence).
  rewrite length_app, length_firstn, length_skipn. lia.
Qed.



(** ** Errors of the play methods *)

Lemma at_index_None {A : Type} (l : list A) (i : Z) :
  at_index l i = None <-> (i < 0)%Z \/ (Z.of_nat (List.length l) <= i)%Z.
Proof.
  unfold at_index. destruct (i <? 0)%Z eqn:E.
  - apply Z.ltb_lt in E. split; auto.
  - apply Z.ltb_ge in E. rewrite nth_error_None. lia.
Qed.





(** ** Simultaneous resolution *)



(** ** Game over and skipped turns *)

Lemma checkGameOver_verdict (s : GameState) :
  fst (checkGameOver s) = Qle_bool (hp (p1 s)) 0 || Qle_bool (hp (p2 s)) 0.
Proof.
  unfold checkGameOver.
  destruct (Qle_bool (hp (p1 s)) 0); [reflexivity |].
  destruct (Qle_bool (hp (p2 s)) 0); reflexivity.
Qed.

Lemma checkGameOver_true (s : GameState) :
  fst (checkGameOver s) = true <-> hp (p1 s) <= 0 \/ hp (p2 s) <= 0.
Proof.
  unfold checkGameOver.
  destruct (Qle_bool (hp (p1 s)) 0) eqn:E1.
  - apply Qle_bool_iff in E1. cbn. tauto.
  - destruct (Qle_bool (hp (p2 s)) 0) eqn:E2.
    + apply Qle_bool_iff in E2. cbn. tauto.
    + cbn. split; [discriminate |].
      intros [H | H]; apply Qle_bool_iff in H; congruence.
Qed.

Lemma endTurn_shape (s : GameState) :
  p1 (endTurn s) = p1 s /\ p2 (endTurn s) = p2 s
  /\ turn (endTurn s) = getOpponent (turn s)
  /\ phase (endTurn s) = PhEnd
  /\ mode (endTurn s) = mode s
  /\ log (endTurn s) = log s ++ LogTurnEnd (turn s) :: verdictEvents s
  /\ timers (endTurn s) = if fst (checkGameOver s) then timers s else S (timers s).
Proof.
  unfold endTurn, checkGameOver, verdictEvents.
  cbn [p1 p2 setPhase setTurn addLog hp turn].
  destruct (Qle_bool (hp (p1 s)) 0);
    [| destruct (Qle_bool (hp (p2 s)) 0)];
    cbn; rewrite <- ?app_assoc; repeat split.
Qed.

(** C7. When the active side is flagged [skipped], [startTurn] draws
    nothing and applies no card effect: hands, decks, hp and heat of both
    sides stay as they were.  It clears the active side's flag, flips the
    turn to the opponent, sets the phase to end and evaluates game-over:
    the trace gains the skip line, the end-of-turn line and the verdict,
    and the next turn is scheduled only if the game goes on. *)
Theorem skipped_turn (s : GameState) :
  skipped (player (turn s) s) = true ->
  let active := turn s in
  let s' := startTurn s in
  (forall x : Side,
      hp (player x s') = hp (player x s)
      /\ heat (player x s') = heat (player x s)
      /\ hand (player x s') = hand (player x s)
      /\ deck (player x s') = deck (player x s))
  /\ skipped (player active s') = false
  /\ skipped (player (getOpponent active) s') = skipped (player (getOpponent active) s)
  /\ turn s' = getOpponent active
  /\ phase s' = PhEnd
  /\ log s' = log s ++ LogSkipTurn active :: LogTurnEnd active :: verdictEvents s
  /\ timers s' = if fst (checkGameOver s) then timers s else S (timers s).
Proof.
  intros Hskip. cbv zeta. remember (turn s) as a eqn:Ea.
  unfold startTurn. rewrite <- Ea.
  assert (Hflag : skipped (player a (setPhase PhStart s)) = true)
    by (destruct a; exact Hskip).
  rewrite Hflag.
  set (s3 := setPlayer a _ _).
  destruct (endTurn_shape s3) as (H1 & H2 & Ht & Hp & _ & Hl & Htm).
  assert (Hview : p1 s3 = (if Side_eqb a P1 then setSkipped false (p1 s) else p1 s)
                  /\ p2 s3 = (if Side_eqb a P2 then setSkipped false (p2 s) else p2 s)
                  /\ turn s3 = a
                  /\ log s3 = log s ++ [LogSkipTurn a]
                  /\ timers s3 = timers s
                  /\ verdictEvents s3 = verdictEvents s
                  /\ fst (checkGameOver s3) = fst (checkGameOver s)).
  { subst s3.
    destruct a;
      (split; [reflexivity |]; split; [reflexivity |]; split; [symmetry; exact Ea |];
       split; [reflexivity |]; split; [reflexivity |]; split; [reflexivity |];
       rewrite !checkGameOver_verdict; reflexivity). }
  destruct Hview as (V1 & V2 & Vt & Vl & Vtm & Vv & Vg).
  rewrite Ht, Hp, Hl, Htm, Vt, Vl, Vtm, Vv, Vg, <- app_assoc. cbn [app].
  split; [| split; [| split]].
  - intros x. destruct x; cbn [player]; rewrite ?H1, ?H2, ?V1, ?V2;
      destruct a; cbn; repeat split.
  - destruct a; cbn [player]; rewrite ?H1, ?H2, ?V1, ?V2; reflexivity.
  - destruct a; cbn [player getOpponent]; rewrite ?H1, ?H2, ?V1, ?V2; reflexivity.
  - repeat split.
Qed.

(** The overheated p1 loses its turn: nothing is drawn, the flag is
    cleared and p2 is up next. *)
Lemma skipped_turn_overheated :
  skipped (player P1 (startTurn overheated)) = false
  /\ turn (startTurn overheated) = P2
  /\ phase (startTurn overheated) = PhEnd
  /\ log (startTurn overheated) = log overheated ++ [LogSkipTurn P1; LogTurnEnd P1].
Proof.
  destruct (skipped_turn overheated eq_refl) as (_ & Hflag & _ & Hturn & Hphase & Hlog & _).
  split; [exact Hflag |]. split; [exact Hturn |]. split; [exact Hphase |].
  exact Hlog.
Defined.

(* Closes an equivalence one side of which is settled by the hypotheses
   and the other by computing the trace and the timer. *)
Ltac finish_iff :=
  split;
  [ first [ tauto | intros _; split; [reflexivity | eexists; reflexivity] ]
  | first [ tauto | intros [Hn _]; lia ] ].

(** C8. The game-over evaluator answers true exactly when some side's hp
    is at most 0, and that is exactly when [_endTurn] declares the game
    over instead of scheduling the next turn; p1's defeat is tested first,
    so when both sides are at or below 0 it is p2 who is declared the
    winner. *)
Theorem game_over_evaluator (s : GameState) :
  (fst (checkGameOver s) = true <-> hp (p1 s) <= 0 \/ hp (p2 s) <= 0)
  /\ (hp (p1 s) <= 0 -> hp (p2 s) <= 0 ->
      checkGameOver s = (true, addLog (LogWins P2) s))
  /\ (hp (p1 s) <= 0 -> checkGameOver s = (true, addLog (LogWins P2) s))
  /\ (~ hp (p1 s) <= 0 -> hp (p2 s) <= 0 ->
      checkGameOver s = (true, addLog (LogWins P1) s))
  /\ (~ hp (p1 s) <= 0 -> ~ hp (p2 s) <= 0 -> checkGameOver s = (false, s))
  /\ (hp (p1 s) <= 0 \/ hp (p2 s) <= 0 <->
      timers (endTurn s) = timers s
      /\ exists winner,
           log (endTurn s) = log s ++ [LogTurnEnd (turn s); LogWins winner; LogGameOver])
  /\ (~ (hp (p1 s) <= 0 \/ hp (p2 s) <= 0) <->
      timers (endTurn s) = S (timers s)
      /\ log (endTurn s) = log s ++ [LogTurnEnd (turn s)]).
Proof.
  pose proof (checkGameOver_true s) as Hiff.
  destruct (endTurn_shape s) as (_ & _ & _ & _ & _ & Hl & Htm).
  rewrite Hl, Htm. clear Hl Htm.
  unfold checkGameOver, verdictEvents in *.
  destruct (Qle_bool (hp (p1 s)) 0) eqn:E1;
    [| destruct (Qle_bool (hp (p2 s)) 0) eqn:E2]; cbn [fst] in *.
  - assert (H1 : hp (p1 s) <= 0) by now apply Qle_bool_iff.
    repeat match goal with |- _ /\ _ => split end;
      try tauto; try (intros; reflexivity); finish_iff.
  - assert (H1 : ~ hp (p1 s) <= 0) by (rewrite <- Qle_bool_iff; congruence).
    assert (H2 : hp (p2 s) <= 0) by now apply Qle_bool_iff.
    repeat match goal with |- _ /\ _ => split end;
      try tauto; try (intros; reflexivity); finish_iff.
  - assert (H1 : ~ hp (p1 s) <= 0) by (rewrite <- Qle_bool_iff; congruence).
    assert (H2 : ~ hp (p2 s) <= 0) by (rewrite <- Qle_bool_iff; congruence).
    repeat match goal with |- _ /\ _ => split end;
      try tauto; try (intros; reflexivity); finish_iff.
Qed.

(** With p1 at -3 and p2 at 0 the winner announced is p2. *)
Lemma game_over_evaluator_double_knockout :
  checkGameOver doubleKnockout = (true, addLog (LogWins P2) doubleKnockout).
Proof.
  apply (proj1 (proj2 (game_over_evaluator doubleKnockout))); vm_compute; discriminate.
Defined.

(** ** Heal and the bound on hp *)

Lemma applyDamage_hp_le (id x : Side) (card : Card) (ins : bool) (s : GameState) :
  hp (player x (applyDamage id card ins s)) <= hp (player x s).
Proof.
  unfold applyDamage. destruct (ifSet (damage card)) as [d |]; [| lra].
  destruct (isAttack card); [| lra].
  match goal with
  | |- context [finalDamage ?a ?b ?c] => pose proof (finalDamage_nonneg a b c) as Hnn
  end.
  destruct id, x; cbn [player getOpponent addLog setPlayer p1 p2 setHp hp] in *; lra.
Qed.

















(** ** Selecting twice in simultaneous mode *)

Lemma playCardSimultaneous_staged (id : Side) (i : Z) (s : GameState) (card : Card) :
  mode s = "simultaneous"%string ->
  at_index (hand (player id s)) i = Some card ->
  playCardSimultaneous id i s =
    match selectedCard (p1 (staged id i card s)), selectedCard (p2 (staged id i card s)) with
    | Some _, Some _ => resolveSimultaneousTurn (staged id i card s)
    | _, _ => (Returned, staged id i card s)
    end.
Proof.
  intros Hm Hc. unfold playCardSimultaneous. rewrite Hm, Hc. cbn [negb String.eqb].
  replace (addLog (LogSelect id) _) with (staged id i card s)
    by (unfold staged; destruct id; reflexivity).
  reflexivity.
Qed.

(** C10. In simultaneous mode, when one side selects twice while the
    other side has selected nothing, both calls return without resolving;
    both chosen cards have left that side's hand; the staging slot holds
    the second card only, the first is in no field of the state and none
    of its effects was applied (hp, heat and the rest of both sides are
    as before); and when the other side then selects, the turn is
    resolved with the second card against the other side's card. *)
Theorem double_selection (id : Side) (i j : Z) (s : GameState) (c1 c2 : Card) :
  mode s = "simultaneous"%string ->
  selectedCard (player (getOpponent id) s) = None ->
  at_index (hand (player id s)) i = Some c1 ->
  at_index (splice1 i (hand (player id s))) j = Some c2 ->
  let s1 := snd (playCardSimultaneous id i s) in
  let s2 := snd (playCardSimultaneous id j s1) in
  playCardSimultaneous id i s = (Returned, s1)
  /\ playCardSimultaneous id j s1 = (Returned, s2)
  /\ s2 = addLog (LogSelect id) (addLog (LogSelect id)
            (setPlayer id
               (setHand (splice1 j (splice1 i (hand (player id s))))
                  (setSelectedCard (Some c2) (player id s))) s))
  /\ (forall (k : Z) (c3 : Card),
         at_index (hand (player (getOpponent id) s2)) k = Some c3 ->
         let ready := staged (getOpponent id) k c3 s2 in
         let p1Card := match id with P1 => c2 | P2 => c3 end in
         let p2Card := match id with P1 => c3 | P2 => c2 end in
         playCardSimultaneous (getOpponent id) k s2 =
           (Returned,
            endTurn (checkOverheat P2 (checkOverheat P1
              (clearSelections (simultaneousEffects p1Card p2Card ready)))))).
Proof.
  intros Hm Hopp Hc1 Hc2.
  assert (E1 : playCardSimultaneous id i s = (Returned, staged id i c1 s)).
  { rewrite (playCardSimultaneous_staged id i s c1 Hm Hc1).
    destruct id; cbn [staged addLog setPlayer p1 p2 player getOpponent] in *;
      cbn [selectedCard setHand setSelectedCard]; rewrite ?Hopp; reflexivity. }
  assert (Hm1 : mode (staged id i c1 s) = "simultaneous"%string)
    by (destruct id; exact Hm).
  assert (Hh1 : hand (player id (staged id i c1 s)) = splice1 i (hand (player id s)))
    by (destruct id; reflexivity).
  assert (E2 : playCardSimultaneous id j (staged id i c1 s)
               = (Returned, staged id j c2 (staged id i c1 s))).
  { rewrite (playCardSimultaneous_staged id j _ c2 Hm1) by (rewrite Hh1; exact Hc2).
    destruct id; cbn [staged addLog setPlayer p1 p2 player getOpponent] in *;
      cbn [selectedCard setHand setSelectedCard]; rewrite ?Hopp; reflexivity. }
  cbv zeta. rewrite E1. cbn [snd]. rewrite E2. cbn [snd].
  split; [reflexivity |]. split; [reflexivity |]. split.
  - destruct id; reflexivity.
  - intros k c3 Hc3.
    set (s2 := staged id j c2 (staged id i c1 s)) in *.
    assert (Hm2 : mode s2 = "simultaneous"%string) by (destruct id; exact Hm).
    rewrite (playCardSimultaneous_staged (getOpponent id) k s2 c3 Hm2 Hc3).
    destruct id; reflexivity.
Qed.

(** p1 selects the heavy strike, then the quick stab: both have left its
    hand, the quick stab alone is staged, and p2's selection is answered
    by a resolution of quick stab against it. *)
Lemma double_selection_two_in_hand :
  let s2 := snd (playCardSimultaneous P1 0 (snd (playCardSimultaneous P1 0 twoInHand))) in
  hand (player P1 s2) = []
  /\ selectedCard (player P1 s2) = Some quickStab
  /\ hp (player P2 s2) = hp (player P2 twoInHand)
  /\ heat (player P1 s2) = heat (player P1 twoInHand).
Proof.
  destruct (double_selection P1 0 0 twoInHand heavyStrike quickStab
              eq_refl eq_refl eq_refl eq_refl) as (_ & _ & Hs2 & _).
  cbv zeta in *. rewrite Hs2. repeat split.
Defined.

(** * Further properties of the engine *)

(** ** Drawing *)

Lemma drawCard_fields (id x : Side) (s : GameState) :
  hand (player x (drawCard id s))
  = hand (player x s) ++ (if Side_eqb x id then firstn 1 (deck (player x s)) else [])
  /\ deck (player x (drawCard id s))
     = (if Side_eqb x id then skipn 1 (deck (player x s)) else deck (player x s))
  /\ hp (player x (drawCard id s)) = hp (player x s)
  /\ heat (player x (drawCard id s)) = heat (player x s)
  /\ skipped (player x (drawCard id s)) = skipped (player x s)
  /\ selectedCard (player x (drawCard id s)) = selectedCard (player x s).
Proof.
  unfold drawCard.
  destruct id, x; cbn [Side_eqb player];
    match goal with
    | |- context [match deck ?p with _ => _ end] => destruct (deck p) eqn:E
    end;
    cbn [player setPlayer addLog p1 p2 setHand setDeck hand deck hp heat skipped
         selectedCard firstn skipn];
    rewrite ?E, ?app_nil_r; repeat split; reflexivity.
Qed.

Lemma drawCard_control_log (id : Side) (s : GameState) :
  control (drawCard id s) = control s
  /\ log (drawCard id s)
     = log s ++ map (fun c => LogDraw id (name c)) (firstn 1 (deck (player id s))).
Proof.
  unfold drawCard. destruct (deck (player id s)) as [| c rest].
  - cbn. rewrite app_nil_r. split; reflexivity.
  - destruct id; split; reflexivity.
Qed.

(** X1. [_drawCard] moves the front card of the side's deck to the back of
    its hand and logs it; on an empty deck it changes nothing at all, trace
    included.  Either way the cards the side holds, hand followed by deck,
    are the same sequence as before, and the other side is untouched. *)
Theorem drawCard_moves_front_card (id : Side) (s : GameState) :
  (deck (player id s) = [] -> drawCard id s = s)
  /\ (forall c rest, deck (player id s) = c :: rest ->
        hand (player id (drawCard id s)) = hand (player id s) ++ [c]
        /\ deck (player id (drawCard id s)) = rest
        /\ log (drawCard id s) = log s ++ [LogDraw id (name c)])
  /\ hand (player id (drawCard id s)) ++ deck (player id (drawCard id s))
     = hand (player id s) ++ deck (player id s)
  /\ player (getOpponent id) (drawCard id s) = player (getOpponent id) s
  /\ control (drawCard id s) = control s.
Proof.
  split; [| split; [| split; [| split]]].
  - intros E. unfold drawCard. rewrite E. reflexivity.
  - intros c rest E. unfold drawCard. rewrite E. destruct id; repeat split.
  - destruct (drawCard_fields id id s) as (Hh & Hd & _).
    rewrite Hh, Hd.
    replace (Side_eqb id id) with true by (destruct id; reflexivity).
    rewrite <- app_assoc, firstn_skipn. reflexivity.
  - unfold drawCard. destruct (deck (player id s)); [reflexivity |].
    destruct id; reflexivity.
  - apply drawCard_control_log.
Qed.

(** X2. When the active side is not flagged [skipped], [startTurn] makes
    both sides draw one card (none from an empty deck), the active side
    first, and opens the action phase: the turn, the timers and every
    side's hp, heat, flag and staged card stay as they were. *)
Theorem startTurn_draws (s : GameState) :
  skipped (player (turn s) s) = false ->
  let active := turn s in
  let s' := startTurn s in
  phase s' = PhAction
  /\ turn s' = active
  /\ mode s' = mode s
  /\ timers s' = timers s
  /\ (forall x : Side,
         hand (player x s') = hand (player x s) ++ firstn 1 (deck (player x s))
         /\ deck (player x s') = skipn 1 (deck (player x s))
         /\ hp (player x s') = hp (player x s)
         /\ heat (player x s') = heat (player x s)
         /\ skipped (player x s') = skipped (player x s)
         /\ selectedCard (player x s') = selectedCard (player x s))
  /\ log s'
     = log s
       ++ map (fun c => LogDraw active (name c)) (firstn 1 (deck (player active s)))
       ++ map (fun c => LogDraw (getOpponent active) (name c))
            (firstn 1 (deck (player (getOpponent active) s)))
       ++ [LogTurnStart active].
Proof.
  intros Hskip. cbv zeta. remember (turn s) as a eqn:Ea.
  unfold startTurn. rewrite <- Ea.
  assert (Hflag : skipped (player a (setPhase PhStart s)) = false)
    by (destruct a; exact Hskip).
  rewrite Hflag.
  set (s0 := setPhase PhStart s).
  set (s1 := drawCard a s0).
  set (s2 := drawCard (getOpponent a) s1).
  destruct (drawCard_control_log a s0) as (Hc1 & Hl1).
  destruct (drawCard_control_log (getOpponent a) s1) as (Hc2 & Hl2).
  fold s1 in Hc1, Hl1. fold s2 in Hc2, Hl2.
  assert (Hplayers : forall x, player x s0 = player x s) by (intros []; reflexivity).
  unfold control in Hc1, Hc2.
  assert (Hctl : turn s2 = a /\ mode s2 = mode s /\ timers s2 = timers s).
  { assert (turn s0 = a /\ mode s0 = mode s /\ timers s0 = timers s)
      by (subst s0; cbn; auto).
    intuition congruence. }
  destruct Hctl as (Ht & Hm & Htm).
  cbn [phase turn mode timers setPhase addLog log].
  split; [reflexivity |]. split; [exact Ht |]. split; [exact Hm |].
  split; [exact Htm |]. split.
  - intros x.
    destruct (drawCard_fields (getOpponent a) x s1) as (Hh2 & Hd2 & Hhp2 & Hht2 & Hs2 & Hsel2).
    destruct (drawCard_fields a x s0) as (Hh1 & Hd1 & Hhp1 & Hht1 & Hs1 & Hsel1).
    fold s1 in Hh1, Hd1, Hhp1, Hht1, Hs1, Hsel1.
    fold s2 in Hh2, Hd2, Hhp2, Hht2, Hs2, Hsel2.
    rewrite Hplayers in *.
    replace (hand (player x (setPhase PhAction (addLog (LogTurnStart a) s2))))
      with (hand (player x s2)) by (destruct x; reflexivity).
    replace (deck (player x (setPhase PhAction (addLog (LogTurnStart a) s2))))
      with (deck (player x s2)) by (destruct x; reflexivity).
    replace (hp (player x (setPhase PhAction (addLog (LogTurnStart a) s2))))
      with (hp (player x s2)) by (destruct x; reflexivity).
    replace (heat (player x (setPhase PhAction (addLog (LogTurnStart a) s2))))
      with (heat (player x s2)) by (destruct x; reflexivity).
    replace (skipped (player x (setPhase PhAction (addLog (LogTurnStart a) s2))))
      with (skipped (player x s2)) by (destruct x; reflexivity).
    replace (selectedCard (player x (setPhase PhAction (addLog (LogTurnStart a) s2))))
      with (selectedCard (player x s2)) by (destruct x; reflexivity).
    rewrite Hh2, Hd2, Hhp2, Hht2, Hs2, Hsel2, Hh1, Hd1, Hhp1, Hht1, Hs1, Hsel1.
    destruct x, a; cbn [Side_eqb getOpponent]; rewrite ?app_nil_r; repeat split.
  - rewrite Hl2, Hl1.
    destruct (drawCard_fields a (getOpponent a) s0) as (_ & Hd1 & _).
    fold s1 in Hd1. rewrite Hd1.
    replace (Side_eqb (getOpponent a) a) with false by (destruct a; reflexivity).
    rewrite !Hplayers.
    replace (log s0) with (log s) by reflexivity.
    rewrite <- !app_assoc. reflexivity.
Qed.

(** The opening of the source's sample game: both sides draw the heavy
    strike and p1 is to act. *)
Lemma startTurn_draws_sample :
  phase opening = PhAction
  /\ hand (player P1 opening) = [heavyStrike]
  /\ hand (player P2 opening) = [heavyStrike]
  /\ List.length (deck (player P1 opening)) = 7%nat.
Proof.
  pose (g := newGame (exampleCards ++ exampleCards) (exampleCards ++ exampleCards) "classic").
  destruct (startTurn_draws g eq_refl) as (Hp & _ & _ & _ & Hx & _).
  change (startTurn g) with opening in *.
  split; [exact Hp |].
  destruct (Hx P1) as (H1 & D1 & _). destruct (Hx P2) as (H2 & _).
  rewrite H1, H2, D1. repeat split.
Defined.

(** ** Heat and damage of one card *)







(** X5. Whatever the card and whether or not the strike is an insert
    attack, applying it never raises the opponent's hp; the acting side's
    hp moves only through [heal]: it is untouched when the card has no
    (non-zero) heal, and a non-negative heal never lowers an hp that is at
    most 100. *)
Theorem hp_moves_one_way (id : Side) (card : Card) (ins : bool) (s : GameState) :
  hp (player (getOpponent id) (applyCardEffects id card ins s))
  <= hp (player (getOpponent id) s)
  /\ (ifSet (heal card) = None ->
      hp (player id (applyCardEffects id card ins s)) = hp (player id s))
  /\ (forall h, heal card = Some h -> 0 <= h -> hp (player id s) <= 100 ->
      hp (player id s) <= hp (player id (applyCardEffects id card ins s))).
Proof.
  unfold applyCardEffects.
  set (s1 := applyHeat id card s).
  set (s2 := applyDamage id card ins s1).
  assert (Hself : hp (player id s2) = hp (player id s)).
  { subst s2 s1.
    destruct (applyDamage_player id id card ins (applyHeat id card s)) as (_ & _ & _ & Hd).
    rewrite Hd by (intros E; symmetry in E; exact (getOpponent_neq id E)).
    apply applyHeat_player. }
  split; [| split].
  - rewrite (proj2 (proj2 (proj2 (applyHeal_player id (getOpponent id) card s2))))
      by apply getOpponent_neq.
    eapply Qle_trans; [apply applyDamage_hp_le |].
    subst s1. rewrite (proj1 (applyHeat_player id (getOpponent id) card s)). lra.
  - intros Hnone. unfold applyHeal. rewrite Hnone. exact Hself.
  - intros h Hh Hpos Hle. unfold applyHeal.
    destruct (ifSet (heal card)) as [h' |] eqn:E.
    + apply ifSet_Some in E. destruct E as [E _]. assert (h' = h) as -> by congruence.
      assert (Hnew : hp (player id (addLog (LogHeal id h (Qmin 100 (hp (player id s2) + h)))
                                     (setPlayer id
                                        (setHp (Qmin 100 (hp (player id s2) + h)) (player id s2))
                                        s2)))
                     = Qmin 100 (hp (player id s2) + h)) by (destruct id; reflexivity).
      rewrite Hnew, Hself. apply Q.min_glb; lra.
    + rewrite Hself. lra.
Qed.

(** ** Flags and heat across a resolution *)

Lemma checkOverheat_fields (id x : Side) (s : GameState) :
  skipped (player x (checkOverheat id s))
  = (skipped (player x s) || (Side_eqb x id && overheats x s))
  /\ heat (player x (checkOverheat id s))
     = (if Side_eqb x id && overheats x s then 0 else heat (player x s)).
Proof.
  unfold checkOverheat, overheats.
  destruct id, x; cbn [Side_eqb andb]; rewrite ?orb_false_r; try (split; reflexivity);
    match goal with
    | |- context [Qltb 100 ?h] => destruct (Qltb 100 h)
    end; cbn; rewrite ?orb_true_r, ?orb_false_r; split; reflexivity.
Qed.

Lemma overheat_pair_fields (a x : Side) (s : GameState) :
  skipped (player x (checkOverheat (getOpponent a) (checkOverheat a s)))
  = (skipped (player x s) || overheats x s)
  /\ heat (player x (checkOverheat (getOpponent a) (checkOverheat a s)))
     = (if overheats x s then 0 else heat (player x s)).
Proof.
  destruct (checkOverheat_fields (getOpponent a) x (checkOverheat a s)) as [-> ->].
  destruct (checkOverheat_fields a x s) as [Hs Hh].
  unfold overheats in *. rewrite Hs, Hh.
  destruct a, x; cbn [Side_eqb getOpponent andb]; rewrite ?orb_false_r;
    try (split; reflexivity);
    match goal with
    | |- context [Qltb 100 (heat ?p)] => destruct (Qltb 100 (heat p)) eqn:E
    end; cbn [andb]; rewrite ?orb_false_r, ?orb_true_r; try (split; reflexivity).
  all: replace (Qltb 100 0) with false by reflexivity;
    rewrite ?orb_false_r; split; reflexivity.
Qed.

Lemma resolveTurn_flags_aux (s : GameState) (x : Side) :
  let checked := checkInsertTurn (turn s) (getOpponent (turn s)) s in
  skipped (player x (resolveTurn s)) = (skipped (player x checked) || overheats x checked)
  /\ heat (player x (resolveTurn s))
     = (if overheats x checked then 0 else heat (player x checked)).
Proof.
  intros checked. unfold resolveTurn. fold checked. rewrite endTurn_players.
  apply (overheat_pair_fields (turn s) x checked).
Qed.

(** X6. A classic resolution never clears a pending skip: a side leaves
    [_resolveTurn] flagged exactly when it was flagged already or the
    overheat check found it above 100, and its heat is then 0 in the second
    case and what the insert-turn check left otherwise.  The insert-turn
    check itself never touches a flag. *)
Theorem resolveTurn_flags (s : GameState) (x : Side) :
  let checked := checkInsertTurn (turn s) (getOpponent (turn s)) s in
  skipped (player x checked) = skipped (player x s)
  /\ skipped (player x (resolveTurn s)) = (skipped (player x s) || overheats x checked)
  /\ heat (player x (resolveTurn s))
     = (if overheats x checked then 0 else heat (player x checked)).
Proof.
  intros checked.
  assert (Hflag : skipped (player x checked) = skipped (player x s)).
  { subst checked.
    destruct (checkInsertTurn_cases (turn s) (getOpponent (turn s)) s)
      as [[_ ->] | [(_ & _ & ->) | (_ & c & _ & ->)]].
    - reflexivity.
    - destruct x; reflexivity.
    - rewrite (proj2 (applyCardEffects_cards _ x c true _)). destruct x; reflexivity. }
  split; [exact Hflag |].
  unfold resolveTurn. fold checked. rewrite endTurn_players.
  destruct (overheat_pair_fields (turn s) x checked) as [-> ->].
  rewrite Hflag. split; reflexivity.
Qed.

(** ** Phases of a classic turn *)

Lemma Phase_eqb_eq (a b : Phase) : Phase_eqb a b = true <-> a = b.
Proof. destruct a, b; cbn; split; congruence. Qed.

Lemma Side_eqb_eq (a b : Side) : Side_eqb a b = true <-> a = b.
Proof. destruct a, b; cbn; split; congruence. Qed.

Lemma control_fields (s s' : GameState) :
  control s' = control s ->
  turn s' = turn s /\ phase s' = phase s /\ mode s' = mode s /\ timers s' = timers s.
Proof. unfold control. intros [= -> -> -> ->]. repeat split. Qed.

Lemma playCard_played (id : Side) (i : Z) (s : GameState) (card : Card) :
  mode s = "classic"%string ->
  at_index (hand (player id s)) i = Some card ->
  playCard id i s =
    (Returned,
     if Phase_eqb (phase s) PhAction && Side_eqb id (turn s)
     then addLog (LogDefendNext (getOpponent id)) (setPhase PhDefense (played id i card s))
     else if Phase_eqb (phase s) PhDefense && negb (Side_eqb id (turn s))
          then resolveTurn (played id i card s)
          else played id i card s).
Proof.
  intros Hm Hc. unfold playCard. rewrite Hm, Hc. cbn [negb String.eqb].
  fold (played id i card s).
  assert (Hctl : phase (played id i card s) = phase s /\ turn (played id i card s) = turn s).
  { unfold played. pose proof (applyCardEffects_control id card false
      (addLog (LogPlay id (name card))
         (setPlayer id (setHand (splice1 i (hand (player id s))) (player id s)) s))) as H.
    apply control_fields in H. destruct H as (Ht & Hp & _).
    rewrite Ht, Hp. destruct id; split; reflexivity. }
  destruct Hctl as [-> ->].
  destruct (Phase_eqb (phase s) PhAction && Side_eqb id (turn s)); [reflexivity |].
  destruct (Phase_eqb (phase s) PhDefense && negb (Side_eqb id (turn s))); reflexivity.
Qed.

Lemma resolveTurn_control (s : GameState) :
  turn (resolveTurn s) = getOpponent (turn s)
  /\ phase (resolveTurn s) = PhEnd
  /\ mode (resolveTurn s) = mode s.
Proof.
  unfold resolveTurn.
  set (s3 := checkOverheat _ (checkOverheat _ (checkInsertTurn _ _ s))).
  destruct (endTurn_shape s3) as (_ & _ & Ht & Hp & Hm & _).
  assert (Hc : control s3 = control s).
  { subst s3.
    rewrite (proj2 (proj2 (checkOverheat_frame _ P1 _))).
    rewrite (proj2 (proj2 (checkOverheat_frame _ P1 _))).
    apply (checkInsertTurn_cards _ _ P1). }
  unfold control in Hc. rewrite Ht, Hp, Hm. repeat split; congruence.
Qed.

(** X7. A valid classic play always applies the card, and then: played by
    the active side in the action phase it opens the defense phase without
    resolving; played by the other side in the defense phase it resolves
    the turn, which passes to that side with phase end; in every other
    combination of player and phase the effects stand but neither the
    phase, the turn nor the timers move. *)
Theorem playCard_transitions (id : Side) (i : Z) (s : GameState) (card : Card) :
  mode s = "classic"%string ->
  at_index (hand (player id s)) i = Some card ->
  let after := played id i card s in
  (phase s = PhAction -> id = turn s ->
   playCard id i s
   = (Returned, addLog (LogDefendNext (getOpponent id)) (setPhase PhDefense after)))
  /\ (phase s = PhDefense -> id <> turn s ->
      playCard id i s = (Returned, resolveTurn after)
      /\ turn (resolveTurn after) = id
      /\ phase (resolveTurn after) = PhEnd)
  /\ (~ (phase s = PhAction /\ id = turn s) ->
      ~ (phase s = PhDefense /\ id <> turn s) ->
      playCard id i s = (Returned, after)
      /\ phase after = phase s /\ turn after = turn s /\ timers after = timers s).
Proof.
  intros Hm Hc after. rewrite (playCard_played id i s card Hm Hc). fold after.
  assert (Hctl : control after = control s).
  { subst after. unfold played. rewrite applyCardEffects_control. destruct id; reflexivity. }
  unfold control in Hctl.
  split; [| split].
  - intros Hp Ht.
    rewrite (proj2 (Phase_eqb_eq _ _) Hp), (proj2 (Side_eqb_eq _ _) Ht). reflexivity.
  - intros Hp Ht.
    assert (Hs : Side_eqb id (turn s) = false).
    { destruct (Side_eqb id (turn s)) eqn:E; [| reflexivity].
      apply Side_eqb_eq in E. contradiction. }
    rewrite Hp, Hs. cbn [Phase_eqb andb negb].
    destruct (resolveTurn_control after) as (Ht' & Hp' & _).
    split; [reflexivity |]. split; [| exact Hp'].
    rewrite Ht'. replace (turn after) with (turn s) by congruence.
    destruct id, (turn s); try reflexivity; exfalso; apply Ht; reflexivity.
  - intros H1 H2.
    assert (E1 : Phase_eqb (phase s) PhAction && Side_eqb id (turn s) = false).
    { destruct (Phase_eqb (phase s) PhAction) eqn:Ea, (Side_eqb id (turn s)) eqn:Eb;
        try reflexivity.
      exfalso. apply H1. split; [now apply Phase_eqb_eq | now apply Side_eqb_eq]. }
    assert (E2 : Phase_eqb (phase s) PhDefense && negb (Side_eqb id (turn s)) = false).
    { destruct (Phase_eqb (phase s) PhDefense) eqn:Ea, (Side_eqb id (turn s)) eqn:Eb;
        try reflexivity.
      exfalso. apply H2. split; [now apply Phase_eqb_eq |].
      intros E. apply Side_eqb_eq in E. congruence. }
    rewrite E1, E2. repeat split; congruence.
Qed.

(** In [gap50]'s game the defense phase is open and p1 is the active
    side: a second card from p1 is applied but the phase stays where it
    was. *)
Lemma playCard_transitions_out_of_turn :
  let g := run [CallStartTurn; CallStartTurn; CallPlayCard P1 0]
             (newGame [heavyStrike; vent] [block; quickStab] "classic") in
  phase g = PhDefense
  /\ turn g = P1
  /\ playCard P1 0 g = (Returned, played P1 0 vent g)
  /\ phase (played P1 0 vent g) = PhDefense.
Proof.
  intros g. split; [reflexivity |]. split; [reflexivity |].
  destruct (playCard_transitions P1 0 g vent eq_refl eq_refl) as (_ & _ & H).
  destruct H as (H & Hp & _).
  - vm_compute. intros [E _]. discriminate E.
  - vm_compute. intros [_ E]. apply E. reflexivity.
  - split; [exact H | exact Hp].
Defined.

(** ** Selections in simultaneous mode *)

Lemma simultaneousEffects_control (c1 c2 : Card) (s : GameState) :
  control (simultaneousEffects c1 c2 s) = control s.
Proof.
  unfold simultaneousEffects.
  destruct (isAttack c1 && isAttack c2);
    [| destruct (isAttack c1 && isDefense c2);
       [| destruct (isDefense c1 && isAttack c2)]];
    repeat first
      [ rewrite (proj2 (checkInsertTurn_cards _ _ P1 _))
      | rewrite applyCardEffects_control ];
    reflexivity.
Qed.

Lemma resolveSimultaneousTurn_result (s : GameState) (c1 c2 : Card) :
  selectedCard (p1 s) = Some c1 ->
  selectedCard (p2 s) = Some c2 ->
  exists s',
    resolveSimultaneousTurn s = (Returned, s')
    /\ turn s' = getOpponent (turn s)
    /\ phase s' = PhEnd
    /\ mode s' = mode s
    /\ forall x : Side,
         selectedCard (player x s') = None
         /\ hand (player x s') = hand (player x s)
         /\ deck (player x s') = deck (player x s).
Proof.
  intros H1 H2. unfold resolveSimultaneousTurn. rewrite H1, H2.
  set (s2 := clearSelections (simultaneousEffects c1 c2 s)).
  set (s4 := checkOverheat P2 (checkOverheat P1 s2)).
  exists (endTurn s4). split; [reflexivity |].
  destruct (endTurn_shape s4) as (_ & _ & Ht & Hp & Hm & _).
  assert (Hc2 : control s2 = control s).
  { subst s2. rewrite <- (simultaneousEffects_control c1 c2 s). reflexivity. }
  assert (Hc4 : control s4 = control s).
  { subst s4.
    rewrite (proj2 (proj2 (checkOverheat_frame _ P1 _))).
    rewrite (proj2 (proj2 (checkOverheat_frame _ P1 _))). exact Hc2. }
  apply control_fields in Hc4. destruct Hc4 as (Ht4 & _ & Hm4 & _).
  rewrite Ht, Hp, Hm, Ht4, Hm4.
  split; [reflexivity |]. split; [reflexivity |]. split; [reflexivity |].
  intros x. rewrite endTurn_players.
  assert (H4 : cardsOf (player x s4) = cardsOf (player x s2)).
  { subst s4.
    rewrite (proj1 (proj2 (checkOverheat_frame _ x _))).
    apply (checkOverheat_frame P1 x s2). }
  pose proof (simultaneousEffects_cards c1 c2 x s) as H0.
  assert (Hclear : selectedCard (player x s2) = None
                   /\ hand (player x s2) = hand (player x (simultaneousEffects c1 c2 s))
                   /\ deck (player x s2) = deck (player x (simultaneousEffects c1 c2 s)))
    by (subst s2; destruct x; repeat split).
  unfold cardsOf in H4, H0. destruct Hclear as (Hs & Hh & Hd).
  injection H4 as E1 E2 E3. injection H0 as F1 F2 F3.
  repeat split; congruence.
Qed.

(** X8. A valid selection in simultaneous mode is only staged while the
    other side has staged nothing: no effect is applied and phase and turn
    stay.  As soon as it meets a staged card of the other side the turn is
    resolved within the same call: the turn passes, the phase is end, both
    staging slots are empty again and neither deck was touched. *)
Theorem playCardSimultaneous_transitions (id : Side) (i : Z) (s : GameState) (card : Card) :
  mode s = "simultaneous"%string ->
  at_index (hand (player id s)) i = Some card ->
  (selectedCard (player (getOpponent id) s) = None ->
   playCardSimultaneous id i s = (Returned, staged id i card s))
  /\ (forall other, selectedCard (player (getOpponent id) s) = Some other ->
      exists s',
        playCardSimultaneous id i s = (Returned, s')
        /\ turn s' = getOpponent (turn s)
        /\ phase s' = PhEnd
        /\ forall x : Side,
             selectedCard (player x s') = None
             /\ hand (player x s') = hand (player x (staged id i card s))
             /\ deck (player x s') = deck (player x s)).
Proof.
  intros Hm Hc. rewrite (playCardSimultaneous_staged id i s card Hm Hc). split.
  - intros Hnone.
    destruct id; cbn [staged addLog setPlayer p1 p2 player getOpponent] in *;
      cbn [selectedCard setHand setSelectedCard]; rewrite ?Hnone; reflexivity.
  - intros other Hother.
    set (st := staged id i card s).
    assert (Hsel : exists c1 c2, selectedCard (p1 st) = Some c1 /\ selectedCard (p2 st) = Some c2).
    { subst st. destruct id; cbn [getOpponent player] in Hother.
      - exists card, other. split; [reflexivity | exact Hother].
      - exists other, card. split; [exact Hother | reflexivity]. }
    destruct Hsel as (c1 & c2 & H1 & H2). rewrite H1, H2.
    destruct (resolveSimultaneousTurn_result st c1 c2 H1 H2)
      as (s' & Hr & Ht & Hp & _ & Hx).
    exists s'. split; [exact Hr |].
    split; [rewrite Ht; subst st; destruct id; reflexivity |].
    split; [exact Hp |].
    intros x. destruct (Hx x) as (Hs & Hh & Hd).
    split; [exact Hs |]. split; [exact Hh |].
    rewrite Hd. subst st. destruct id, x; reflexivity.
Qed.

(** In [twoInHand] p1 stages the heavy strike, then p2's quick stab
    resolves the turn at once. *)
Lemma playCardSimultaneous_transitions_sample :
  playCardSimultaneous P1 0 twoInHand = (Returned, staged P1 0 heavyStrike twoInHand)
  /\ exists s',
       playCardSimultaneous P2 1 (staged P1 0 heavyStrike twoInHand) = (Returned, s')
       /\ turn s' = P2 /\ phase s' = PhEnd.
Proof.
  split.
  - apply (playCardSimultaneous_transitions P1 0 twoInHand heavyStrike eq_refl eq_refl).
    reflexivity.
  - destruct (proj2 (playCardSimultaneous_transitions P2 1
                       (staged P1 0 heavyStrike twoInHand) quickStab eq_refl eq_refl)
                heavyStrike eq_refl) as (s' & Hr & Ht & Hp & _).
    exists s'. split; [exact Hr |]. split; [exact Ht | exact Hp].
Defined.

(** ** What a whole call leaves alone *)

Lemma extendsLog_refl (s : GameState) : extendsLog s s.
Proof. exists []. now rewrite app_nil_r. Qed.

Lemma extendsLog_trans (s1 s2 s3 : GameState) :
  extendsLog s1 s2 -> extendsLog s2 s3 -> extendsLog s1 s3.
Proof.
  intros (e1 & H1) (e2 & H2). exists (e1 ++ e2). now rewrite H2, H1, app_assoc.
Qed.

Lemma quiet_refl (s : GameState) : quiet s s.
Proof. split; [reflexivity |]. split; [apply extendsLog_refl | reflexivity]. Qed.

Lemma quiet_trans (s1 s2 s3 : GameState) : quiet s1 s2 -> quiet s2 s3 -> quiet s1 s3.
Proof.
  intros (M1 & L1 & C1) (M2 & L2 & C2). split; [congruence |].
  split; [eapply extendsLog_trans; eassumption |].
  intros x. rewrite C2. apply C1.
Qed.

Lemma quiet_addLog (e : LogEvent) (s : GameState) : quiet s (addLog e s).
Proof.
  split; [reflexivity |]. split; [exists [e]; reflexivity |]. intros []; reflexivity.
Qed.

Lemma quiet_applyCardEffects (id : Side) (card : Card) (ins : bool) (s : GameState) :
  quiet s (applyCardEffects id card ins s).
Proof.
  split; [| split].
  - apply (control_fields _ _ (applyCardEffects_control id card ins s)).
  - destruct (applyCardEffects_log id card ins s) as (evs & H & _). exists evs. exact H.
  - intros x. apply applyCardEffects_cards.
Qed.

Lemma quiet_checkInsertTurn (attacker defender : Side) (s : GameState) :
  quiet s (checkInsertTurn attacker defender s).
Proof.
  destruct (checkInsertTurn_cases attacker defender s)
    as [[_ ->] | [(_ & _ & ->) | (_ & c & _ & ->)]].
  - apply quiet_refl.
  - apply quiet_addLog.
  - eapply quiet_trans; [apply quiet_addLog |].
    eapply quiet_trans; [apply quiet_addLog | apply quiet_applyCardEffects].
Qed.

Lemma quiet_checkOverheat (id : Side) (s : GameState) : quiet s (checkOverheat id s).
Proof.
  split; [| split].
  - apply (control_fields _ _ (proj2 (proj2 (checkOverheat_frame id P1 s)))).
  - unfold checkOverheat. destruct (Qltb 100 (heat (player id s)));
      [| apply extendsLog_refl].
    exists [LogOverheat id]. destruct id; reflexivity.
  - intros x. apply checkOverheat_frame.
Qed.

Lemma quiet_endTurn (s : GameState) : quiet s (endTurn s).
Proof.
  destruct (endTurn_shape s) as (_ & _ & _ & _ & Hm & Hl & _).
  split; [exact Hm |]. split; [eexists; exact Hl |].
  intros x. rewrite endTurn_players. reflexivity.
Qed.

Lemma quiet_resolveTurn (s : GameState) : quiet s (resolveTurn s).
Proof.
  unfold resolveTurn.
  eapply quiet_trans; [apply quiet_checkInsertTurn |].
  eapply quiet_trans; [apply quiet_checkOverheat |].
  eapply quiet_trans; [apply quiet_checkOverheat | apply quiet_endTurn].
Qed.

Lemma quiet_simultaneousEffects (c1 c2 : Card) (s : GameState) :
  quiet s (simultaneousEffects c1 c2 s).
Proof.
  unfold simultaneousEffects.
  destruct (isAttack c1 && isAttack c2);
    [| destruct (isAttack c1 && isDefense c2);
       [| destruct (isDefense c1 && isAttack c2)]];
    repeat first
      [ apply quiet_refl
      | eapply quiet_trans;
        [| first [apply quiet_checkInsertTurn | apply quiet_applyCardEffects
                 | apply quiet_addLog] ] ].
Qed.

Lemma held_of_cardsOf (p p' : PlayerState) : cardsOf p' = cardsOf p -> held p' = held p.
Proof. unfold cardsOf, held. intros [= -> -> ->]. reflexivity. Qed.

Lemma shrinks_refl (p : PlayerState) : shrinks p p.
Proof. split; [apply incl_refl | lia]. Qed.

Lemma shrinks_trans (p q r : PlayerState) : shrinks p q -> shrinks q r -> shrinks p r.
Proof.
  intros [I1 L1] [I2 L2]. split; [eapply incl_tran; eassumption | lia].
Qed.

Lemma shrinks_of_held (p p' : PlayerState) : held p' = held p -> shrinks p p'.
Proof. intros H. unfold shrinks. rewrite H. split; [apply incl_refl | lia]. Qed.

Lemma quiet_shrinks (s s' : GameState) (x : Side) :
  quiet s s' -> shrinks (player x s) (player x s').
Proof.
  intros (_ & _ & H). apply shrinks_of_held, held_of_cardsOf, H.
Qed.

Lemma startTurn_frame (s : GameState) :
  mode (startTurn s) = mode s
  /\ extendsLog s (startTurn s)
  /\ forall x : Side,
       selectedCard (player x (startTurn s)) = selectedCard (player x s)
       /\ held (player x (startTurn s)) = held (player x s).
Proof.
  unfold startTurn.
  destruct (skipped (player (turn s) (setPhase PhStart s))).
  - set (s3 := setPlayer _ _ _).
    destruct (quiet_endTurn s3) as (Hm & Hl & Hc).
    assert (H3 : mode s3 = mode s /\ extendsLog s s3
                 /\ forall x, cardsOf (player x s3) = cardsOf (player x s)).
    { subst s3. destruct (turn s); (split; [reflexivity |]);
        (split; [eexists [_]; reflexivity | intros []; reflexivity]). }
    destruct H3 as (Hm3 & Hl3 & Hc3).
    split; [congruence |]. split; [eapply extendsLog_trans; eassumption |].
    intros x. specialize (Hc x). specialize (Hc3 x). rewrite Hc3 in Hc.
    split; [| apply held_of_cardsOf; exact Hc].
    unfold cardsOf in Hc. congruence.
  - set (s0 := setPhase PhStart s).
    set (s1 := drawCard (turn s) s0).
    set (s2 := drawCard (getOpponent (turn s)) s1).
    destruct (drawCard_control_log (turn s) s0) as (Hc1 & Hl1).
    destruct (drawCard_control_log (getOpponent (turn s)) s1) as (Hc2 & Hl2).
    fold s1 in Hc1, Hl1. fold s2 in Hc2, Hl2.
    apply control_fields in Hc1, Hc2.
    split; [| split].
    + cbn [mode setPhase addLog]. destruct Hc1 as (_ & _ & M1 & _).
      destruct Hc2 as (_ & _ & M2 & _). rewrite M2, M1. reflexivity.
    + unfold extendsLog. eexists. cbn [log setPhase addLog]. rewrite Hl2, Hl1.
      replace (log s0) with (log s) by reflexivity.
      rewrite <- !app_assoc. reflexivity.
    + intros x.
      assert (Hfinal : player x (setPhase PhAction (addLog (LogTurnStart (turn s)) s2))
                       = player x s2) by (destruct x; reflexivity).
      rewrite Hfinal.
      destruct (drawCard_fields (getOpponent (turn s)) x s1) as (Hh2 & Hd2 & _ & _ & _ & Hs2).
      destruct (drawCard_fields (turn s) x s0) as (Hh1 & Hd1 & _ & _ & _ & Hs1).
      fold s1 in Hh1, Hd1, Hs1. fold s2 in Hh2, Hd2, Hs2.
      replace (player x s0) with (player x s) in * by (destruct x; reflexivity).
      split; [congruence |].
      unfold held. rewrite Hs2, Hs1, Hh2, Hd2, Hh1, Hd1.
      destruct (Side_eqb x (getOpponent (turn s))), (Side_eqb x (turn s));
        rewrite ?app_nil_r, <- ?app_assoc;
        repeat (rewrite (app_assoc (firstn 1 _) (skipn 1 _)), firstn_skipn);
        reflexivity.
Qed.

Lemma remove_at_incl {A : Type} (n : nat) (l : list A) :
  incl (firstn n l ++ skipn (S n) l) l.
Proof.
  revert l. induction n as [| n IH]; intros [| a l]; cbn [firstn skipn app].
  - apply incl_refl.
  - apply incl_tl, incl_refl.
  - apply incl_refl.
  - apply incl_cons; [left; reflexivity |]. apply incl_tl. apply IH.
Qed.

Lemma at_index_In {A : Type} (l : list A) (i : Z) (a : A) :
  at_index l i = Some a -> In a l.
Proof.
  unfold at_index. destruct (i <? 0)%Z; [discriminate |]. apply nth_error_In.
Qed.

Lemma quiet_setPhase (v : Phase) (s : GameState) : quiet s (setPhase v s).
Proof.
  split; [reflexivity |].
  split; [exists []; cbn; now rewrite app_nil_r | intros []; reflexivity].
Qed.

Lemma quiet_extends (s s' : GameState) : quiet s s' -> extendsLog s s'.
Proof. intros (_ & H & _). exact H. Qed.

Lemma resolveSimultaneousTurn_log (s : GameState) :
  extendsLog s (snd (resolveSimultaneousTurn s)).
Proof.
  unfold resolveSimultaneousTurn.
  destruct (selectedCard (p1 s)) as [c1 |]; [| apply extendsLog_refl].
  destruct (selectedCard (p2 s)) as [c2 |]; [| apply extendsLog_refl].
  cbn [snd].
  set (s1 := simultaneousEffects c1 c2 s).
  set (s2 := clearSelections s1).
  apply (extendsLog_trans s s1); [apply quiet_extends, quiet_simultaneousEffects |].
  apply (extendsLog_trans s1 s2); [exists []; cbn; now rewrite app_nil_r |].
  apply (extendsLog_trans s2 (checkOverheat P1 s2));
    [apply quiet_extends, quiet_checkOverheat |].
  apply (extendsLog_trans _ (checkOverheat P2 (checkOverheat P1 s2)));
    [apply quiet_extends, quiet_checkOverheat | apply quiet_extends, quiet_endTurn].
Qed.

(** Taking the card at index [i] out of the hand of [id]. *)
Lemma spliced_shrinks (id x : Side) (i : Z) (s : GameState) :
  let s1 := setPlayer id (setHand (splice1 i (hand (player id s))) (player id s)) s in
  mode s1 = mode s /\ log s1 = log s
  /\ selectedCard (player x s1) = selectedCard (player x s)
  /\ shrinks (player x s) (player x s1).
Proof.
  intros s1. split; [subst s1; destruct id; reflexivity |].
  split; [subst s1; destruct id; reflexivity |].
  split; [subst s1; destruct id, x; reflexivity |].
  assert (Hcases : x <> id \/ x = id) by (destruct x, id; auto; left; discriminate).
  destruct Hcases as [Hx | ->].
  - subst s1. rewrite player_setPlayer_other by exact Hx. apply shrinks_refl.
  - subst s1. rewrite player_setPlayer_same. unfold shrinks, held.
    cbn [hand deck selectedCard setHand]. split.
    + apply incl_app; [| apply incl_appr, incl_refl].
      apply incl_appl. apply remove_at_incl.
    + rewrite !length_app.
      assert (List.length (splice1 i (hand (player id s)))
              <= List.length (hand (player id s)))%nat.
      { unfold splice1. rewrite length_app, length_firstn, length_skipn. lia. }
      lia.
Qed.

Lemma playCard_frame (id : Side) (i : Z) (s : GameState) :
  let s' := snd (playCard id i s) in
  mode s' = mode s
  /\ extendsLog s s'
  /\ forall x : Side,
       selectedCard (player x s') = selectedCard (player x s)
       /\ shrinks (player x s) (player x s').
Proof.
  intros s'. subst s'. unfold playCard.
  assert (Hsame : mode s = mode s /\ extendsLog s s
                  /\ forall x, selectedCard (player x s) = selectedCard (player x s)
                               /\ shrinks (player x s) (player x s)).
  { split; [reflexivity |]. split; [apply extendsLog_refl |].
    intros x. split; [reflexivity | apply shrinks_refl]. }
  destruct (negb (mode s =? "classic")%string); [exact Hsame |].
  destruct (at_index (hand (player id s)) i) as [card |]; [| exact Hsame].
  clear Hsame.
  set (s1 := setPlayer id (setHand (splice1 i (hand (player id s))) (player id s)) s).
  set (s3 := applyCardEffects id card false (addLog (LogPlay id (name card)) s1)).
  assert (Q3 : quiet s1 s3).
  { subst s3. eapply quiet_trans; [apply quiet_addLog | apply quiet_applyCardEffects]. }
  match goal with
  | |- context [snd ?r] => set (result := r)
  end.
  assert (Qr : quiet s1 (snd result)).
  { subst result.
    destruct (Phase_eqb (phase s3) PhAction && Side_eqb id (turn s3)).
    - cbn [snd]. eapply quiet_trans; [exact Q3 |].
      eapply quiet_trans; [apply quiet_setPhase | apply quiet_addLog].
    - destruct (Phase_eqb (phase s3) PhDefense && negb (Side_eqb id (turn s3))); cbn [snd].
      + eapply quiet_trans; [exact Q3 | apply quiet_resolveTurn].
      + exact Q3. }
  destruct Qr as (Hm & (evs & Hl) & Hc).
  split; [rewrite Hm; apply (spliced_shrinks id id i s) |].
  split.
  - exists evs. rewrite Hl. f_equal. apply (spliced_shrinks id id i s).
  - intros x. destruct (spliced_shrinks id x i s) as (_ & _ & Hsel & Hshr).
    fold s1 in Hsel, Hshr. specialize (Hc x). split.
    + unfold cardsOf in Hc. congruence.
    + eapply shrinks_trans; [exact Hshr |]. apply shrinks_of_held, held_of_cardsOf, Hc.
Qed.

Lemma staged_shrinks (id x : Side) (i : Z) (card : Card) (s : GameState) :
  at_index (hand (player id s)) i = Some card ->
  mode (staged id i card s) = mode s
  /\ extendsLog s (staged id i card s)
  /\ shrinks (player x s) (player x (staged id i card s)).
Proof.
  intros Hc. split; [destruct id; reflexivity |].
  split; [exists [LogSelect id]; destruct id; reflexivity |].
  assert (Hcases : x <> id \/ x = id) by (destruct x, id; auto; left; discriminate).
  destruct Hcases as [Hx | ->].
  - replace (player x (staged id i card s)) with (player x s)
      by (destruct x, id; try reflexivity; exfalso; apply Hx; reflexivity).
    apply shrinks_refl.
  - replace (player id (staged id i card s))
      with (setHand (splice1 i (hand (player id s)))
              (setSelectedCard (Some card) (player id s)))
      by (destruct id; reflexivity).
    unfold shrinks, held. cbn [hand deck selectedCard setHand setSelectedCard]. split.
    + apply incl_app; [apply incl_appl, remove_at_incl |].
      apply incl_app; [apply incl_appr, incl_appl, incl_refl |].
      intros c [<- | []]. apply in_or_app. left. exact (at_index_In _ _ _ Hc).
    + pose proof (splice1_length i _ card Hc) as Hlen.
      rewrite !length_app. cbn [List.length]. lia.
Qed.

Lemma playCardSimultaneous_frame (id : Side) (i : Z) (s : GameState) :
  let s' := snd (playCardSimultaneous id i s) in
  mode s' = mode s
  /\ extendsLog s s'
  /\ (forall x : Side, shrinks (player x s) (player x s'))
  /\ (notBothStaged s -> notBothStaged s')
  /\ (mode s <> "simultaneous"%string -> s' = s).
Proof.
  intros s'. subst s'.
  assert (Hsame : mode s = mode s /\ extendsLog s s
                  /\ (forall x, shrinks (player x s) (player x s))
                  /\ (notBothStaged s -> notBothStaged s)
                  /\ (mode s <> "simultaneous"%string -> s = s)).
  { split; [reflexivity |]. split; [apply extendsLog_refl |].
    split; [intros x; apply shrinks_refl |]. split; auto. }
  unfold playCardSimultaneous.
  destruct (mode s =? "simultaneous")%string eqn:Em; cbn [negb]; [| exact Hsame].
  apply String.eqb_eq in Em.
  destruct (at_index (hand (player id s)) i) as [card |] eqn:Hc; [| exact Hsame].
  clear Hsame.
  replace (addLog (LogSelect id) _) with (staged id i card s)
    by (unfold staged; destruct id; reflexivity).
  set (st := staged id i card s).
  assert (Hst : mode st = mode s /\ extendsLog s st
                /\ forall x, shrinks (player x s) (player x st)).
  { split; [apply (staged_shrinks id id i card s Hc) |].
    split; [apply (staged_shrinks id id i card s Hc) |].
    intros x. apply (staged_shrinks id x i card s Hc). }
  destruct Hst as (Hm & Hl & Hs).
  destruct (selectedCard (p1 st)) as [c1 |] eqn:E1;
    [destruct (selectedCard (p2 st)) as [c2 |] eqn:E2 |]; cbn [snd].
  - pose proof (resolveSimultaneousTurn_log st) as Hlog.
    destruct (resolveSimultaneousTurn_result st c1 c2 E1 E2)
      as (s' & Hr & _ & _ & Hm' & Hx).
    rewrite Hr in *. cbn [snd] in *.
    split; [congruence |].
    split; [eapply extendsLog_trans; eassumption |].
    split; [| split].
    + intros x. eapply shrinks_trans; [apply Hs |].
      destruct (Hx x) as (Hsel & Hh & Hd). unfold shrinks, held.
      rewrite Hsel, Hh, Hd. split.
      * apply incl_app; [apply incl_appl, incl_refl |].
        apply incl_app; [apply incl_appr, incl_appl, incl_refl | intros c []].
      * rewrite !length_app. cbn [List.length]. lia.
    + intros _. left. apply (Hx P1).
    + intros Hne. contradiction.
  - split; [exact Hm |]. split; [exact Hl |]. split; [exact Hs |].
    split; [intros _; right; exact E2 | intros Hne; contradiction].
  - split; [exact Hm |]. split; [exact Hl |]. split; [exact Hs |].
    split; [intros _; left; exact E1 | intros Hne; contradiction].
Qed.

Lemma exec_frame (c : Call) (s : GameState) :
  mode (exec c s) = mode s
  /\ extendsLog s (exec c s)
  /\ (forall x : Side, shrinks (player x s) (player x (exec c s)))
  /\ (notBothStaged s -> notBothStaged (exec c s))
  /\ (mode s <> "simultaneous"%string ->
      forall x : Side, selectedCard (player x (exec c s)) = selectedCard (player x s)).
Proof.
  assert (Hstart : forall s0 : GameState,
             (forall x, player x s0 = player x s) -> mode s0 = mode s -> log s0 = log s ->
             mode (startTurn s0) = mode s
             /\ extendsLog s (startTurn s0)
             /\ (forall x, shrinks (player x s) (player x (startTurn s0)))
             /\ (notBothStaged s -> notBothStaged (startTurn s0))
             /\ (mode s <> "simultaneous"%string ->
                 forall x, selectedCard (player x (startTurn s0)) = selectedCard (player x s))).
  { intros s0 Hp Hm Hl.
    destruct (startTurn_frame s0) as (M & (evs & L) & X).
    assert (Hsel : forall x, selectedCard (player x (startTurn s0)) = selectedCard (player x s)).
    { intros x. rewrite (proj1 (X x)), Hp. reflexivity. }
    split; [congruence |]. split; [exists evs; congruence |].
    split; [| split].
    - intros x. apply shrinks_of_held. rewrite (proj2 (X x)), Hp. reflexivity.
    - unfold notBothStaged.
      change (p1 (startTurn s0)) with (player P1 (startTurn s0)).
      change (p2 (startTurn s0)) with (player P2 (startTurn s0)).
      rewrite !Hsel. auto.
    - intros _. exact Hsel. }
  destruct c as [| id i | id i |]; cbn [exec].
  - apply Hstart; reflexivity || (intros []; reflexivity).
  - destruct (playCard_frame id i s) as (M & L & X).
    split; [exact M |]. split; [exact L |]. split; [intros x; apply X |]. split.
    + unfold notBothStaged.
      change (p1 (snd (playCard id i s))) with (player P1 (snd (playCard id i s))).
      change (p2 (snd (playCard id i s))) with (player P2 (snd (playCard id i s))).
      rewrite (proj1 (X P1)), (proj1 (X P2)). auto.
    + intros _ x. apply X.
  - destruct (playCardSimultaneous_frame id i s) as (M & L & X & N & Same).
    split; [exact M |]. split; [exact L |]. split; [exact X |]. split; [exact N |].
    intros Hne x. rewrite (Same Hne). reflexivity.
  - destruct (timers s) as [| n].
    + split; [reflexivity |]. split; [apply extendsLog_refl |].
      split; [intros x; apply shrinks_refl |]. split; [auto | reflexivity].
    + apply Hstart; reflexivity || (intros []; reflexivity).
Qed.

(** ** Invariants of a whole game *)

(** X9. The mode given to the constructor is the mode of the game for
    good.  So in a game created in any mode but simultaneous no card is
    ever staged and [playCardSimultaneous] always throws the invalid-mode
    error; and in a game created in any mode but classic [playCard] always
    does: with a mode that is neither, no card can ever be played. *)
Theorem mode_is_fixed (d1 d2 : list Card) (m : string) (cs : list Call) :
  let s := run cs (newGame d1 d2 m) in
  mode s = m
  /\ (m <> "simultaneous"%string ->
      (forall x : Side, selectedCard (player x s) = None)
      /\ forall id i, playCardSimultaneous id i s = (Threw InvalidMode, s))
  /\ (m <> "classic"%string ->
      forall id i, playCard id i s = (Threw InvalidMode, s)).
Proof.
  cbv zeta.
  assert (Hinv : forall s0 : GameState,
             (mode s0 = m
              /\ (m <> "simultaneous"%string -> forall x, selectedCard (player x s0) = None)) ->
             mode (run cs s0) = m
             /\ (m <> "simultaneous"%string ->
                 forall x, selectedCard (player x (run cs s0)) = None)).
  { induction cs as [| c cs IH]; intros s0 [Hm Hsel]; [split; assumption |].
    cbn [run fold_left]. apply IH.
    destruct (exec_frame c s0) as (M & _ & _ & _ & S).
    split; [congruence |].
    intros Hne x. rewrite S by congruence. apply Hsel. exact Hne. }
  destruct (Hinv (newGame d1 d2 m)) as [Hm Hsel].
  { split; [reflexivity |]. intros _ []; reflexivity. }
  split; [exact Hm |]. split.
  - intros Hne. split; [exact (Hsel Hne) |].
    intros id i. unfold playCardSimultaneous.
    rewrite Hm. apply String.eqb_neq in Hne. rewrite Hne. reflexivity.
  - intros Hne id i. unfold playCard.
    rewrite Hm. apply String.eqb_neq in Hne. rewrite Hne. reflexivity.
Qed.

(** X10. In every state a game can reach at most one staging slot is
    occupied: the call that fills the second one resolves the turn and
    empties both before it returns. *)
Theorem never_both_staged (d1 d2 : list Card) (m : string) (cs : list Call) :
  notBothStaged (run cs (newGame d1 d2 m)).
Proof.
  assert (Hinv : forall s0, notBothStaged s0 -> notBothStaged (run cs s0)).
  { induction cs as [| c cs IH]; intros s0 H; [exact H |].
    cbn [run fold_left]. apply IH. apply (exec_frame c s0). exact H. }
  apply Hinv. left. reflexivity.
Qed.

(** X11. No call creates a card or moves one to the other side: in
    every state a game can reach, the cards a side holds (hand, deck and
    staged card) all come from the deck it was given, and they are never
    more numerous than that deck. *)
Theorem no_card_created (d1 d2 : list Card) (m : string) (cs : list Call) :
  let s := run cs (newGame d1 d2 m) in
  incl (held (p1 s)) d1
  /\ (List.length (held (p1 s)) <= List.length d1)%nat
  /\ incl (held (p2 s)) d2
  /\ (List.length (held (p2 s)) <= List.length d2)%nat.
Proof.
  cbv zeta.
  assert (Hinv : forall s0 x, shrinks (player x s0) (player x (run cs s0))).
  { induction cs as [| c cs IH]; intros s0 x; [apply shrinks_refl |].
    cbn [run fold_left]. eapply shrinks_trans; [| apply IH].
    apply (exec_frame c s0). }
  destruct (Hinv (newGame d1 d2 m) P1) as [I1 L1].
  destruct (Hinv (newGame d1 d2 m) P2) as [I2 L2].
  cbn [player] in *.
  replace (held (p1 (newGame d1 d2 m))) with d1 in * by (cbn; now rewrite app_nil_r).
  replace (held (p2 (newGame d1 d2 m))) with d2 in * by (cbn; now rewrite app_nil_r).
  repeat split; assumption.
Qed.

(** X12. The trace is append-only: no call, and so no sequence of calls,
    ever removes or rewrites a line already written; in particular the
    first line of every game is the constructor's. *)
Theorem log_append_only :
  (forall (c : Call) (s : GameState), exists evs, log (exec c s) = log s ++ evs)
  /\ (forall (cs : list Call) (s : GameState), exists evs, log (run cs s) = log s ++ evs)
  /\ (forall d1 d2 m (cs : list Call),
        exists evs, log (run cs (newGame d1 d2 m)) = LogInit m :: evs).
Proof.
  assert (Hexec : forall c s, extendsLog s (exec c s)) by (intros c s; apply exec_frame).
  assert (Hrun : forall cs s, extendsLog s (run cs s)).
  { induction cs as [| c cs IH]; intros s; [apply extendsLog_refl |].
    cbn [run fold_left]. eapply extendsLog_trans; [apply Hexec | apply IH]. }
  split; [exact Hexec |]. split; [exact Hrun |].
  intros d1 d2 m cs. destruct (Hrun cs (newGame d1 d2 m)) as (evs & H).
  exists evs. rewrite H. reflexivity.
Qed.

(** ** Overheating and the next turn *)

Lemma startTurn_skipped (s : GameState) :
  skipped (player (turn s) s) = true ->
  startTurn s
  = endTurn (setPlayer (turn s) (setSkipped false (player (turn s) s))
               (addLog (LogSkipTurn (turn s)) (setPhase PhStart s))).
Proof.
  intros H. unfold startTurn.
  replace (skipped (player (turn s) (setPhase PhStart s))) with true
    by (rewrite <- H; destruct (turn s); reflexivity).
  destruct (turn s); reflexivity.
Qed.

(** X13. When the defender of a classic turn comes out of the overheat
    check above 100, the turn that the resolution hands to it is lost:
    the following [startTurn] draws nothing, clears the flag and gives the
    turn back to the side that has just been active. *)
Theorem overheated_defender_loses_turn (s : GameState) :
  let active := turn s in
  let defender := getOpponent active in
  overheats defender (checkInsertTurn active defender s) = true ->
  let r := resolveTurn s in
  turn r = defender
  /\ skipped (player defender r) = true
  /\ heat (player defender r) = 0
  /\ turn (startTurn r) = active
  /\ skipped (player defender (startTurn r)) = false
  /\ forall x : Side,
       hand (player x (startTurn r)) = hand (player x s)
       /\ deck (player x (startTurn r)) = deck (player x s).
Proof.
  intros active defender Hover r.
  destruct (resolveTurn_flags_aux s defender) as (Hflag & Hheat).
  fold active defender in Hflag, Hheat. rewrite Hover in Hflag, Hheat.
  rewrite orb_true_r in Hflag. fold r in Hflag, Hheat.
  destruct (resolveTurn_control s) as (Ht & _). fold active defender r in Ht.
  assert (Hskip : skipped (player (turn r) r) = true) by (rewrite Ht; exact Hflag).
  rewrite (startTurn_skipped r Hskip). rewrite Ht.
  set (r3 := setPlayer defender _ _).
  destruct (endTurn_shape r3) as (_ & _ & Ht3 & _).
  split; [reflexivity |]. split; [exact Hflag |]. split; [exact Hheat |].
  split; [| split].
  - rewrite Ht3. subst r3.
    replace (turn (setPlayer defender (setSkipped false (player defender r))
                     (addLog (LogSkipTurn defender) (setPhase PhStart r))))
      with (turn r) by (destruct defender; reflexivity).
    rewrite Ht. subst defender. destruct active; reflexivity.
  - rewrite endTurn_players. subst r3. rewrite player_setPlayer_same. reflexivity.
  - intros x. rewrite endTurn_players.
    pose proof (resolveTurn_cards x s) as Hc. fold r in Hc. unfold cardsOf in Hc.
    injection Hc as Hh Hd _.
    assert (H3 : hand (player x r3) = hand (player x r)
                 /\ deck (player x r3) = deck (player x r))
      by (subst r3; destruct defender, x; split; reflexivity).
    destruct H3 as [-> ->]. split; assumption.
Qed.

(** In [boilingDuel] the defender p1 reaches heat 120: p2, who was active,
    is active again after p1's empty turn. *)
Lemma overheated_defender_loses_turn_boiling :
  turn boilingDuel = P2
  /\ turn (resolveTurn boilingDuel) = P1
  /\ turn (startTurn (resolveTurn boilingDuel)) = P2.
Proof.
  destruct (overheated_defender_loses_turn boilingDuel eq_refl)
    as (Ht & _ & _ & Hback & _).
  split; [reflexivity |]. split; [exact Ht | exact Hback].
Defined.

(** ** The strength of an insert attack *)



